(** * RecipeSnap: the upload / ingredients / recipes workflow

    A shallow embedding of the React front end of RecipeSnap
    (src/components/RecipeSnap.js, ImageUpload.js, IngredientsList.js)
    and the properties of its workflow controller and analysis client.

    How the embedding reads the source:
    - a JavaScript string is the sequence of its UTF-16 code units;
    - an event handler is a function from the values its closure captured at
      render time to the list of calls it makes, in program order (state
      setters, props callbacks, [setTimeout], [axios.post]);
    - the page is a [World]: the state of the three components, the pending
      timers, the requests in flight and a clock.  Running a handler applies
      its calls in order and then re-renders, which mounts and unmounts the
      child components as the JSX conditions say. *)

From Stdlib Require Import Ascii String.
From stdpp Require Import base numbers option list strings sorting.

Local Open Scope N_scope.

(** ** JavaScript values used by the components *)

Module JS.

(** A string is its sequence of UTF-16 code units. *)
Abbreviation jsstring := (list N).

(** A string literal of the source (the literals used are all ASCII). *)
Definition lit (s : string) : jsstring :=
  (λ a, N_of_ascii a) <$> list_ascii_of_string s.

(** Truthiness of a string: only the empty string is falsy. *)
Definition truthy (s : jsstring) : bool :=
  match s with [] => false | _ :: _ => true end.

(** [a || b] where [a] is a string or [undefined] and [b] a string. *)
Definition or_else (a : option jsstring) (b : jsstring) : jsstring :=
  match a with
  | Some s => if truthy s then s else b
  | None => b
  end.

(** ECMAScript WhiteSpace and LineTerminator code points; they all lie in
    the basic plane, so the test is on single code units. *)
Definition is_whitespace (c : N) : bool :=
  (c =? 0x0009) || (c =? 0x000A) || (c =? 0x000B) || (c =? 0x000C)
  || (c =? 0x000D) || (c =? 0x0020) || (c =? 0x00A0) || (c =? 0x1680)
  || ((0x2000 <=? c) && (c <=? 0x200A))
  || (c =? 0x2028) || (c =? 0x2029) || (c =? 0x202F) || (c =? 0x205F)
  || (c =? 0x3000) || (c =? 0xFEFF).

Fixpoint trimStart (s : jsstring) : jsstring :=
  match s with
  | [] => []
  | c :: s' => if is_whitespace c then trimStart s' else s
  end.

Definition trimEnd (s : jsstring) : jsstring :=
  reverse (trimStart (reverse s)).

(** [String.prototype.trim] *)
Definition trim (s : jsstring) : jsstring := trimEnd (trimStart s).

(** [Array.prototype.includes] on an array of strings. *)
Definition includes (l : list jsstring) (x : jsstring) : bool :=
  bool_decide (x ∈ l).

(** [Array.prototype.filter]: the callback receives the element and its
    index in the original array. *)
Fixpoint filter_from {A} (p : A → nat → bool) (i : nat) (l : list A) : list A :=
  match l with
  | [] => []
  | x :: l' =>
      if p x i then x :: filter_from p (S i) l' else filter_from p (S i) l'
  end.

Definition filter {A} (p : A → nat → bool) (l : list A) : list A :=
  filter_from p 0 l.

End JS.

Import JS.

(** What JSON.parse, or a thrown value, can put in a property that the
    handlers read without knowing its type. *)
Module Val.

(** A number is carried by the two things the handlers can observe of it:
    whether it is zero (the only falsy number JSON can hold) and its decimal
    rendering by ToString. *)
#[local] Unset Elimination Schemes.
Inductive t :=
| undefined
| null
| boolean (b : bool)
| number (zero : bool) (shown : jsstring)
| str (s : jsstring)
| array (items : list t)
| object (props : list (jsstring * t)).
#[local] Set Elimination Schemes.

(** ToBoolean *)
Definition truthy (v : t) : bool :=
  match v with
  | undefined | null => false
  | boolean b => b
  | number zero _ => negb zero
  | str s => JS.truthy s
  | array _ | object _ => true
  end.

(** [a || b] *)
Definition or_else (a b : t) : t := if truthy a then a else b.

(** ToString, as a template literal applies it: an array is its items joined
    by commas, with nothing for an item that is [null] or [undefined]; an
    object is "[object Object]". *)
Fixpoint to_string (v : t) : jsstring :=
  match v with
  | undefined => lit "undefined"
  | null => lit "null"
  | boolean true => lit "true"
  | boolean false => lit "false"
  | number _ shown => shown
  | str s => s
  | array items =>
      (fix join (l : list t) : jsstring :=
         match l with
         | [] => []
         | x :: l' =>
             match x with
             | undefined | null => []
             | _ => to_string x
             end
             ++ match l' with
                | [] => []
                | _ :: _ => lit "," ++ join l'
                end
         end) items
  | object _ => lit "[object Object]"
  end.

(** The value of the own property [key] of an object built by JSON.parse: the
    last entry for the key, [undefined] when there is none (JSON has no
    [undefined], so no entry holds it). *)
Fixpoint lookup (key : jsstring) (props : list (jsstring * t)) : t :=
  match props with
  | [] => undefined
  | (k, v) :: props' =>
      match lookup key props' with
      | undefined => if bool_decide (k = key) then v else undefined
      | later => later
      end
  end.

End Val.

(** ** The payload of the analysis service *)

Module Recipe.

(** A recipe as [RecipeCard] reads it; the optional fields are tested for
    truthiness before they are drawn. *)
Record t := {
  name : jsstring;
  description : jsstring;
  ingredients : list jsstring;
  instructions : list jsstring;
  prep_time : option jsstring;
  cook_time : option jsstring;
  servings : option N;
  difficulty : option jsstring;
  cuisine_type : option jsstring
}.

End Recipe.

Module AnalysisResult.

(** [response.data] of the full-analysis endpoint. *)
Record t := {
  ingredients : list jsstring;
  recipes : list Recipe.t
}.

End AnalysisResult.

(** The values of [currentStep]: the strings ['upload'], ['ingredients'] and
    ['recipes']. *)
Inductive Step := Upload | Ingredients | Recipes.

Global Instance Step_eq_dec : EqDecision Step.
Proof. solve_decision. Defined.

(** ** IngredientsList.js *)

Module IngredientsList.

(** The two [useState] cells of the component. *)
Record State := {
  customIngredient : jsstring;
  editableIngredients : list jsstring
}.

(** What a handler of this component can call: its own setters and the
    [onIngredientsUpdate] prop. *)
Inductive Call :=
| setCustomIngredient (v : jsstring)
| setEditableIngredients (v : list jsstring)
| onIngredientsUpdate (v : list jsstring).

(** The array built by [removeIngredient]. *)
Definition removed (editable : list jsstring) (index : nat) : list jsstring :=
  JS.filter (λ _ i, negb (i =? index)%nat) editable.

Definition removeIngredient (st : State) (index : nat) : list Call :=
  let updated := removed (editableIngredients st) index in
  [ setEditableIngredients updated; onIngredientsUpdate updated ].

(** The guard of [addCustomIngredient]. *)
Definition can_add (st : State) : bool :=
  truthy (trim (customIngredient st))
  && negb (includes (editableIngredients st) (trim (customIngredient st))).

Definition addCustomIngredient (st : State) : list Call :=
  if can_add st then
    let updated := editableIngredients st ++ [trim (customIngredient st)] in
    [ setEditableIngredients updated; onIngredientsUpdate updated;
      setCustomIngredient (lit "") ]
  else [].

(** [handleKeyPress]: the Enter key adds, every other key does nothing. *)
Definition handleKeyPress (st : State) (key : jsstring) : list Call :=
  if bool_decide (key = lit "Enter") then addCustomIngredient st else [].

(** [onChange] of the text input. *)
Definition onChange (value : jsstring) : list Call :=
  [ setCustomIngredient value ].

(** [useState(ingredients)] on mount. *)
Definition mount (ingredients : list jsstring) : State :=
  {| customIngredient := lit ""; editableIngredients := ingredients |}.

(** The effect of one call on the component's own state; the prop call is
    the parent's business. *)
Definition set (c : Call) (st : State) : State :=
  match c with
  | setCustomIngredient v =>
      {| customIngredient := v; editableIngredients := editableIngredients st |}
  | setEditableIngredients v =>
      {| customIngredient := customIngredient st; editableIngredients := v |}
  | onIngredientsUpdate _ => st
  end.

End IngredientsList.

(** ** RecipeSnap.js: the workflow controller *)

Module RecipeSnap.

(** The five [useState] cells. *)
Record State := {
  ingredients : list jsstring;
  recipes : list Recipe.t;
  loading : bool;
  error : option jsstring;
  currentStep : Step
}.

Definition initial : State :=
  {| ingredients := []; recipes := []; loading := false; error := None;
     currentStep := Upload |}.

Inductive Setter :=
| setIngredients (v : list jsstring)
| setRecipes (v : list Recipe.t)
| setLoading (v : bool)
| setError (v : option jsstring)
| setCurrentStep (v : Step).

(** What a handler of this component can call: a setter, or [setTimeout]
    with a callback that itself only calls setters. *)
Inductive Call :=
| set (s : Setter)
| setTimeout (callback : list Setter) (delay : N).

Definition handleImageAnalysis (analysisResult : AnalysisResult.t) : list Call :=
  [ set (setIngredients (AnalysisResult.ingredients analysisResult));
    set (setRecipes (AnalysisResult.recipes analysisResult)) ]
  ++ (if (0 <? length (AnalysisResult.ingredients analysisResult))%nat then
        set (setCurrentStep Ingredients)
        :: (if (0 <? length (AnalysisResult.recipes analysisResult))%nat then
              [ setTimeout [setCurrentStep Recipes] 1000 ]
            else [])
      else []).

Definition handleError (errorMessage : jsstring) : list Call :=
  [ set (setError (Some errorMessage)); set (setLoading false) ].

Definition resetApp : list Call :=
  [ set (setIngredients []); set (setRecipes []); set (setError None);
    set (setCurrentStep Upload) ].

(** The [onClick] of the × button of the error box. *)
Definition dismissError : list Call := [ set (setError None) ].

Definition apply (s : Setter) (st : State) : State :=
  match s with
  | setIngredients v =>
      {| ingredients := v; recipes := recipes st; loading := loading st;
         error := error st; currentStep := currentStep st |}
  | setRecipes v =>
      {| ingredients := ingredients st; recipes := v; loading := loading st;
         error := error st; currentStep := currentStep st |}
  | setLoading v =>
      {| ingredients := ingredients st; recipes := recipes st; loading := v;
         error := error st; currentStep := currentStep st |}
  | setError v =>
      {| ingredients := ingredients st; recipes := recipes st;
         loading := loading st; error := v; currentStep := currentStep st |}
  | setCurrentStep v =>
      {| ingredients := ingredients st; recipes := recipes st;
         loading := loading st; error := error st; currentStep := v |}
  end.

(** The conditions under which the JSX draws each part. *)
Definition shows_error (st : State) : bool :=
  match error st with Some s => truthy s | None => false end.

Definition shows_upload (st : State) : bool :=
  bool_decide (currentStep st = Upload).

Definition shows_ingredients (st : State) : bool :=
  (bool_decide (currentStep st = Ingredients)
   || bool_decide (currentStep st = Recipes))
  && (0 <? length (ingredients st))%nat.

Definition shows_recipes (st : State) : bool :=
  bool_decide (currentStep st = Recipes) && (0 <? length (recipes st))%nat.

Definition shows_start_over (st : State) : bool :=
  negb (bool_decide (currentStep st = Upload)).

End RecipeSnap.

(** ** config/api.js *)

Module API_CONFIG.

(** [process.env.REACT_APP_API_URL || 'http://localhost:8001'] *)
Definition BASE_URL (REACT_APP_API_URL : option jsstring) : jsstring :=
  or_else REACT_APP_API_URL (lit "http://localhost:8001").

Definition FULL_ANALYSIS : jsstring := lit "/full-analysis".
Definition ANALYZE_INGREDIENTS : jsstring := lit "/analyze-ingredients".
Definition GENERATE_RECIPES : jsstring := lit "/generate-recipes".
Definition HEALTH_CHECK : jsstring := lit "/".

End API_CONFIG.

(** ** ImageUpload.js: the analysis client *)

Module ImageUpload.

Record File := { file_name : jsstring; file_size : N }.

(** [uploadedImage].  The other cell, [imagePreview], holds the data URL
    that the FileReader hands over some time after a drop; it is drawn, and
    the buttons that call [analyzeImage] and [removeImage] are on the page
    only while it is set.  It is left out here, so the page below accepts
    those two clicks whenever the component is mounted: every session of
    the real page is a session of this one, read without the loads of the
    FileReader, and not the other way round. *)
Record State := { uploadedImage : option File }.

Definition mount : State := {| uploadedImage := None |}.

(** The request handed to [axios.post]. *)
Record Request := {
  url : jsstring;
  file : File;
  content_type : jsstring;
  timeout : N
}.

(** [error.response] as the handler reads it: the body, which axios has
    parsed when it is JSON and left as text otherwise, and the status line. *)
Record ErrorResponse := {
  data : Val.t;
  statusText : jsstring
}.

(** The value caught by the [catch] block, an error object, with the four
    properties the block reads: [code] when it is a string, [response] when
    there is one, whether [request] is truthy, and [message].  A value that
    is not an axios error has none of the first three. *)
Record Failure := {
  code : option jsstring;
  response : option ErrorResponse;
  request : bool;
  message : Val.t
}.

(** How the awaited [axios.post] settles: resolved with [response.data]
    ([None] when it is falsy), or rejected. *)
Inductive Settled :=
| resolved (data : option AnalysisResult.t)
| rejected (error : Failure).

(** What [analyzeImage] and the other handlers can call: the setter of the
    component, the three props, the console, and the awaited request. *)
Inductive Call :=
| setUploadedImage (v : option File)
| onAnalysisComplete (data : AnalysisResult.t)
| onError (errorMessage : jsstring)
| setLoading (v : bool)
| console_error (error : Failure)
| axios_post (req : Request).

Definition set (c : Call) (st : State) : State :=
  match c with
  | setUploadedImage v => {| uploadedImage := v |}
  | _ => st
  end.

(** [onDrop]: the first accepted file, when there is one. *)
Definition onDrop (acceptedFiles : list File) : list Call :=
  match acceptedFiles with
  | file :: _ => [ setUploadedImage (Some file) ]
  | [] => []
  end.

Definition removeImage : list Call := [ setUploadedImage None ].

(** [data.detail]: reading a property of [null] or [undefined] throws a
    TypeError ([None]); a string, a number, a boolean or an array has no
    such property. *)
Definition detail (data : Val.t) : option Val.t :=
  match data with
  | Val.undefined | Val.null => None
  | Val.object props => Some (Val.lookup (lit "detail") props)
  | _ => Some Val.undefined
  end.

Definition timeout_message : jsstring :=
  lit "Request timed out. Please try again with a smaller image.".
Definition connect_message : jsstring :=
  lit "Unable to connect to server. Please check if the backend is running.".
Definition no_image_message : jsstring := lit "Please select an image first".
Definition no_data_message : jsstring := lit "No data received from server".

(** The argument of [onError] chosen by the [if] chain of the [catch]
    block; [None] when evaluating it throws, so that [onError] is not
    called. *)
Definition failure_message (error : Failure) : option jsstring :=
  if bool_decide (code error = Some (lit "ECONNABORTED")) then
    Some timeout_message
  else match response error with
       | Some r =>
           match detail (data r) with
           | Some d =>
               Some (lit "Server error: "
                     ++ Val.to_string (Val.or_else d (Val.str (statusText r))))
           | None => None
           end
       | None =>
           if request error then Some connect_message
           else Some (lit "Error: " ++ Val.to_string (message error))
       end.

Definition analysis_request (env : option jsstring) (f : File) : Request :=
  {| url := API_CONFIG.BASE_URL env ++ API_CONFIG.FULL_ANALYSIS;
     file := f;
     content_type := lit "multipart/form-data";
     timeout := 60000 |}.

(** [analyzeImage] up to the [await]. *)
Definition analyzeImage_begin (env : option jsstring) (st : State) : list Call :=
  match uploadedImage st with
  | None => [ onError no_image_message ]
  | Some f => [ setLoading true; axios_post (analysis_request env f) ]
  end.

(** [analyzeImage] from the [await] on: the rest of the [try] block or the
    [catch] block, then the [finally] block.  When the [catch] block throws,
    the [finally] block still runs; the promise of [analyzeImage] is then
    rejected, which nobody observes (the click handler drops it). *)
Definition analyzeImage_resume (settled : Settled) : list Call :=
  match settled with
  | resolved (Some data) => [ onAnalysisComplete data ]
  | resolved None => [ onError no_data_message ]
  | rejected error =>
      console_error error
      :: match failure_message error with
         | Some errorMessage => [ onError errorMessage ]
         | None => []
         end
  end
  ++ [ setLoading false ].


End ImageUpload.

(** ** The page: components, timers, requests in flight *)

(** A pending [setTimeout]: the time at which it is due and its callback. *)
Record Timer := {
  due : N;
  callback : list RecipeSnap.Setter
}.

Record World := {
  env : option jsstring;                          (* REACT_APP_API_URL *)
  recipeSnap : RecipeSnap.State;
  imageUpload : option ImageUpload.State;         (* [None]: not mounted *)
  ingredientsList : option IngredientsList.State; (* [None]: not mounted *)
  timers : list Timer;
  inflight : list ImageUpload.Request;
  now : N
}.

Definition with_recipeSnap
    (f : RecipeSnap.State → RecipeSnap.State) (w : World) : World :=
  {| env := env w; recipeSnap := f (recipeSnap w); imageUpload := imageUpload w;
     ingredientsList := ingredientsList w; timers := timers w;
     inflight := inflight w; now := now w |}.

Definition with_imageUpload
    (f : option ImageUpload.State → option ImageUpload.State) (w : World) : World :=
  {| env := env w; recipeSnap := recipeSnap w; imageUpload := f (imageUpload w);
     ingredientsList := ingredientsList w; timers := timers w;
     inflight := inflight w; now := now w |}.

Definition with_ingredientsList
    (f : option IngredientsList.State → option IngredientsList.State)
    (w : World) : World :=
  {| env := env w; recipeSnap := recipeSnap w; imageUpload := imageUpload w;
     ingredientsList := f (ingredientsList w); timers := timers w;
     inflight := inflight w; now := now w |}.

Definition with_timers (f : list Timer → list Timer) (w : World) : World :=
  {| env := env w; recipeSnap := recipeSnap w; imageUpload := imageUpload w;
     ingredientsList := ingredientsList w; timers := f (timers w);
     inflight := inflight w; now := now w |}.

Definition with_inflight
    (f : list ImageUpload.Request → list ImageUpload.Request) (w : World) : World :=
  {| env := env w; recipeSnap := recipeSnap w; imageUpload := imageUpload w;
     ingredientsList := ingredientsList w; timers := timers w;
     inflight := f (inflight w); now := now w |}.

Definition with_now (t : N) (w : World) : World :=
  {| env := env w; recipeSnap := recipeSnap w; imageUpload := imageUpload w;
     ingredientsList := ingredientsList w; timers := timers w;
     inflight := inflight w; now := t |}.

(** The page when the application starts: [RecipeSnap] in its initial state
    draws the upload step, so [ImageUpload] is mounted. *)
Definition start (e : option jsstring) : World :=
  {| env := e; recipeSnap := RecipeSnap.initial;
     imageUpload := Some ImageUpload.mount; ingredientsList := None;
     timers := []; inflight := []; now := 0 |}.

(** *** What each call does to the page *)

Definition call_recipeSnap (w : World) (c : RecipeSnap.Call) : World :=
  match c with
  | RecipeSnap.set s => with_recipeSnap (RecipeSnap.apply s) w
  | RecipeSnap.setTimeout cb delay =>
      with_timers (λ ts, ts ++ [ {| due := now w + delay; callback := cb |} ]) w
  end.

(** The props [RecipeSnap] passes to [ImageUpload]: [onAnalysisComplete] is
    [handleImageAnalysis], [onError] is [handleError], [setLoading] is the
    setter itself. *)
Definition call_imageUpload (w : World) (c : ImageUpload.Call) : World :=
  match c with
  | ImageUpload.setUploadedImage _ =>
      with_imageUpload (fmap (ImageUpload.set c)) w
  | ImageUpload.onAnalysisComplete data =>
      foldl call_recipeSnap w (RecipeSnap.handleImageAnalysis data)
  | ImageUpload.onError errorMessage =>
      foldl call_recipeSnap w (RecipeSnap.handleError errorMessage)
  | ImageUpload.setLoading v =>
      call_recipeSnap w (RecipeSnap.set (RecipeSnap.setLoading v))
  | ImageUpload.console_error _ => w
  | ImageUpload.axios_post req => with_inflight (λ rs, rs ++ [req]) w
  end.

(** The prop [RecipeSnap] passes to [IngredientsList]: [onIngredientsUpdate]
    is [setIngredients]. *)
Definition call_ingredientsList (w : World) (c : IngredientsList.Call) : World :=
  match c with
  | IngredientsList.onIngredientsUpdate v =>
      call_recipeSnap w (RecipeSnap.set (RecipeSnap.setIngredients v))
  | _ => with_ingredientsList (fmap (IngredientsList.set c)) w
  end.

(** Re-rendering: a child whose condition holds stays mounted with its state,
    or is mounted afresh; a child whose condition fails is unmounted. *)
Definition render (w : World) : World :=
  with_imageUpload
    (λ c, if RecipeSnap.shows_upload (recipeSnap w)
          then Some (default ImageUpload.mount c) else None)
    (with_ingredientsList
       (λ c, if RecipeSnap.shows_ingredients (recipeSnap w)
             then Some (default (IngredientsList.mount
                                   (RecipeSnap.ingredients (recipeSnap w)))
                                c)
             else None)
       w).

(** Running a handler: its calls in order, then one re-render. *)
Definition run_recipeSnap (calls : list RecipeSnap.Call) (w : World) : World :=
  render (foldl call_recipeSnap w calls).

Definition run_imageUpload (calls : list ImageUpload.Call) (w : World) : World :=
  render (foldl call_imageUpload w calls).

Definition run_ingredientsList
    (calls : list IngredientsList.Call) (w : World) : World :=
  render (foldl call_ingredientsList w calls).

(** *** Time *)

Definition is_due (t : N) (tm : Timer) : bool := due tm <=? t.

(** The clock advances by [ms]; the timers that are due by then fire, each
    callback a task of its own.  Every timer of this page has the same
    delay, so the pending list is in order of due time. *)
Definition elapse (ms : N) (w : World) : World :=
  let t := now w + ms in
  let fired := List.filter (is_due t) (timers w) in
  let waiting := List.filter (λ tm, negb (is_due t tm)) (timers w) in
  foldl (λ w tm, run_recipeSnap (RecipeSnap.set <$> callback tm) w)
        (with_now t (with_timers (λ _, waiting) w))
        fired.

(** *** What the user and the environment can do *)

Inductive Event :=
| drop_files (acceptedFiles : list ImageUpload.File)
| click_remove_image
| click_analyze
| settle (settled : ImageUpload.Settled)
| type_ingredient (value : jsstring)
| key_press (key : jsstring)
| click_add
| click_remove (index : nat)
| click_dismiss_error
| click_start_over
| wait (ms : N).

Definition step (w : World) (e : Event) : World :=
  match e with
  | drop_files files =>
      match imageUpload w with
      | Some _ => run_imageUpload (ImageUpload.onDrop files) w
      | None => w
      end
  | click_remove_image =>
      match imageUpload w with
      | Some _ => run_imageUpload ImageUpload.removeImage w
      | None => w
      end
  | click_analyze =>
      match imageUpload w with
      | Some st => run_imageUpload (ImageUpload.analyzeImage_begin (env w) st) w
      | None => w
      end
  | settle settled =>
      match inflight w with
      | _ :: rest =>
          run_imageUpload (ImageUpload.analyzeImage_resume settled)
                          (with_inflight (λ _, rest) w)
      | [] => w
      end
  | type_ingredient value =>
      match ingredientsList w with
      | Some _ => run_ingredientsList (IngredientsList.onChange value) w
      | None => w
      end
  | key_press key =>
      match ingredientsList w with
      | Some st => run_ingredientsList (IngredientsList.handleKeyPress st key) w
      | None => w
      end
  | click_add =>
      match ingredientsList w with
      | Some st => run_ingredientsList (IngredientsList.addCustomIngredient st) w
      | None => w
      end
  | click_remove index =>
      match ingredientsList w with
      | Some st => run_ingredientsList (IngredientsList.removeIngredient st index) w
      | None => w
      end
  | click_dismiss_error =>
      if RecipeSnap.shows_error (recipeSnap w)
      then run_recipeSnap RecipeSnap.dismissError w else w
  | click_start_over =>
      if RecipeSnap.shows_start_over (recipeSnap w)
      then run_recipeSnap RecipeSnap.resetApp w else w
  | wait ms => elapse ms w
  end.

Definition run (w : World) (events : list Event) : World := foldl step w events.

(** The ingredient edits among the events. *)
Inductive Edit :=
| edit_type (value : jsstring)
| edit_key (key : jsstring)
| edit_add
| edit_remove (index : nat).

Definition edit_event (e : Edit) : Event :=
  match e with
  | edit_type value => type_ingredient value
  | edit_key key => key_press key
  | edit_add => click_add
  | edit_remove index => click_remove index
  end.

(** The controller receives an analysis result: [onAnalysisComplete], that
    is [handleImageAnalysis], runs. *)
Definition deliver (r : AnalysisResult.t) (w : World) : World :=
  run_recipeSnap (RecipeSnap.handleImageAnalysis r) w.

(** The Reset action: [resetApp] runs. *)
Definition reset (w : World) : World := run_recipeSnap RecipeSnap.resetApp w.

(** Two pages that differ at most in the ingredient list, in the local state
    of the children and in which children are mounted. *)
Definition same_but_ingredients (w w' : World) : Prop :=
  RecipeSnap.currentStep (recipeSnap w') = RecipeSnap.currentStep (recipeSnap w)
  ∧ RecipeSnap.recipes (recipeSnap w') = RecipeSnap.recipes (recipeSnap w)
  ∧ RecipeSnap.error (recipeSnap w') = RecipeSnap.error (recipeSnap w)
  ∧ RecipeSnap.loading (recipeSnap w') = RecipeSnap.loading (recipeSnap w)
  ∧ timers w' = timers w
  ∧ inflight w' = inflight w
  ∧ now w' = now w.

(** ** The error taxonomy *)







(** The calls of [analyzeImage] that report its outcome. *)
Definition is_outcome (c : ImageUpload.Call) : bool :=
  match c with
  | ImageUpload.onAnalysisComplete _ | ImageUpload.onError _ => true
  | _ => false
  end.

Definition outcomes (calls : list ImageUpload.Call) : list ImageUpload.Call :=
  List.filter is_outcome calls.

(** Sample data: the payloads and the file of the scenarios below. *)
Definition tomato_onion : list jsstring := [lit "tomato"; lit "onion"].

Definition salad : Recipe.t :=
  {| Recipe.name := lit "Salad";
     Recipe.description := lit "Tomato and onion salad";
     Recipe.ingredients := [lit "2 tomatoes"; lit "1 onion"];
     Recipe.instructions := [lit "Slice"; lit "Mix"];
     Recipe.prep_time := Some (lit "10 minutes");
     Recipe.cook_time := None;
     Recipe.servings := Some 2;
     Recipe.difficulty := Some (lit "easy");
     Recipe.cuisine_type := None |}.

Definition ingredients_only : AnalysisResult.t :=
  {| AnalysisResult.ingredients := tomato_onion; AnalysisResult.recipes := [] |}.

Definition ingredients_and_recipes : AnalysisResult.t :=
  {| AnalysisResult.ingredients := tomato_onion;
     AnalysisResult.recipes := [salad] |}.

Definition fridge_jpg : ImageUpload.File :=
  {| ImageUpload.file_name := lit "fridge.jpg"; ImageUpload.file_size := 2048 |}.

Definition no_ingredients : AnalysisResult.t :=
  {| AnalysisResult.ingredients := []; AnalysisResult.recipes := [salad] |}.

(** A session: an analysis that brings ingredients and recipes, Start Over
    half a second later, and half a second after that. *)
Definition reset_then_wait : list Event :=
  [ drop_files [fridge_jpg]; click_analyze;
    settle (ImageUpload.resolved (Some ingredients_and_recipes));
    wait 500; click_start_over; wait 500 ].

(** The same session, where the user starts a second analysis right after
    Start Over, before the half second has passed. *)
Definition reset_analyze_then_wait : list Event :=
  [ drop_files [fridge_jpg]; click_analyze;
    settle (ImageUpload.resolved (Some ingredients_and_recipes));
    wait 500; click_start_over;
    drop_files [fridge_jpg]; click_analyze; wait 500 ].

Definition timed_out : ImageUpload.Failure :=
  {| ImageUpload.code := Some (lit "ECONNABORTED");
     ImageUpload.response := None;
     ImageUpload.request := true;
     ImageUpload.message := Val.str (lit "timeout of 60000ms exceeded") |}.





(** A session: an analysis that times out, leaving its message on the page. *)
Definition analysis_times_out : list Event :=
  [ drop_files [fridge_jpg]; click_analyze;
    settle (ImageUpload.rejected timed_out) ].

(** ** Invariants of the page *)

(** The state of the list component once a handler's calls are applied. *)
Definition list_after (calls : list IngredientsList.Call)
    (st : IngredientsList.State) : IngredientsList.State :=
  foldl (λ st c, IngredientsList.set c st) st calls.

(** A string without white space at either end. *)
Definition clean (s : jsstring) : Prop :=
  match s with [] => True | c :: _ => is_whitespace c = false end
  ∧ match last s with None => True | Some c => is_whitespace c = false end.

(** A string made of white space only. *)
Definition blank (s : jsstring) : Prop := Forall (λ c, is_whitespace c = true) s.

(** The list component, when mounted, shows the list the controller holds. *)
Definition list_in_sync (w : World) : Prop :=
  match ingredientsList w with
  | Some st =>
      IngredientsList.editableIngredients st
      = RecipeSnap.ingredients (recipeSnap w)
  | None => True
  end.

(** The list component, when mounted, shows no entry twice. *)
Definition list_nodup (w : World) : Prop :=
  match ingredientsList w with
  | Some st => NoDup (IngredientsList.editableIngredients st)
  | None => True
  end.

(** The children on the page are those the JSX conditions ask for. *)
Definition rendered (w : World) : Prop :=
  (is_Some (imageUpload w) ↔ RecipeSnap.shows_upload (recipeSnap w) = true)
  ∧ (is_Some (ingredientsList w)
     ↔ RecipeSnap.shows_ingredients (recipeSnap w) = true).

(** A pending timer that is the pacing transition of [handleImageAnalysis],
    due within the next 1000 ms. *)
Definition pacing (w : World) (tm : Timer) : Prop :=
  callback tm = [RecipeSnap.setCurrentStep Recipes] ∧ due tm ≤ now w + 1000.

(** The pending timers are pacing transitions, listed in order of due time. *)
Definition timers_ok (w : World) : Prop :=
  Forall (pacing w) (timers w)
  ∧ StronglySorted (λ a b, due a ≤ due b) (timers w).

(** The busy flag is on only while a request is in flight. *)
Definition busy_ok (w : World) : Prop :=
  RecipeSnap.loading (recipeSnap w) = true → inflight w ≠ [].

(** A session with a double click on Analyze: two requests in flight, each
    settling with a result of its own. *)
Definition second_result : AnalysisResult.t :=
  {| AnalysisResult.ingredients := [lit "egg"; lit "milk"; lit "flour"];
     AnalysisResult.recipes := [] |}.

Definition double_submit : list Event :=
  [ drop_files [fridge_jpg]; click_analyze; click_analyze;
    settle (ImageUpload.resolved (Some ingredients_only));
    settle (ImageUpload.resolved (Some second_result)) ].

(** The calls an ingredient edit makes, given the state of the list
    component. *)
Definition edit_calls (e : Edit) (st : IngredientsList.State)
    : list IngredientsList.Call :=
  match e with
  | edit_type value => IngredientsList.onChange value
  | edit_key key => IngredientsList.handleKeyPress st key
  | edit_add => IngredientsList.addCustomIngredient st
  | edit_remove index => IngredientsList.removeIngredient st index
  end.

(** * Properties *)

(** ** JavaScript helpers *)

Example trim_demo : trim (lit "  olive oil ") = lit "olive oil".
Proof. reflexivity. Qed.

Example remove_demo :
  IngredientsList.removed [lit "tomato"; lit "onion"; lit "salt"] 0
  = [lit "onion"; lit "salt"].
Proof. reflexivity. Qed.

Example add_demo :
  IngredientsList.addCustomIngredient
    {| IngredientsList.customIngredient := lit "salt";
       IngredientsList.editableIngredients := [lit "tomato"; lit "onion"] |}
  = [ IngredientsList.setEditableIngredients [lit "tomato"; lit "onion"; lit "salt"];
      IngredientsList.onIngredientsUpdate [lit "tomato"; lit "onion"; lit "salt"];
      IngredientsList.setCustomIngredient [] ].
Proof. reflexivity. Qed.

Section Filter.
Context {A : Type}.
Implicit Types (p q : A → nat → bool) (l : list A).

Lemma filter_from_ext p q k l :
  (∀ x j, p x j = q x j) → JS.filter_from p k l = JS.filter_from q k l.
Proof.
  intros Hpq. revert k.
  induction l as [|x l IH]; intros k; simpl; [done|].
  by rewrite Hpq, IH.
Qed.

Lemma filter_from_all p k l :
  (∀ x j, k ≤ j → p x j = true)%nat → JS.filter_from p k l = l.
Proof.
  revert k. induction l as [|x l IH]; intros k Hp; simpl; [done|].
  rewrite Hp by lia. f_equal. apply IH. intros y j Hj. apply Hp. lia.
Qed.

(** Filtering out one index is deleting at that index. *)
Lemma filter_from_delete k i l :
  JS.filter_from (λ _ j, negb (j =? k + i)%nat) k l = delete i l.
Proof.
  revert k i. induction l as [|x l IH]; intros k i; simpl; [done|].
  destruct i as [|i]; simpl.
  - replace (k =? k + 0)%nat with true by (symmetry; apply Nat.eqb_eq; lia).
    simpl. apply filter_from_all. intros _ j Hj.
    apply negb_true_iff, Nat.eqb_neq. lia.
  - replace (k =? k + S i)%nat with false by (symmetry; apply Nat.eqb_neq; lia).
    simpl. f_equal. rewrite <- (IH (S k) i).
    apply filter_from_ext. intros _ j. do 2 f_equal. lia.
Qed.
End Filter.

Lemma removed_delete (l : list jsstring) (i : nat) :
  IngredientsList.removed l i = delete i l.
Proof. apply (filter_from_delete 0 i l). Qed.

Lemma includes_true (l : list jsstring) (x : jsstring) :
  JS.includes l x = true ↔ x ∈ l.
Proof. unfold JS.includes. apply bool_decide_eq_true. Qed.

Lemma truthy_true (s : jsstring) : JS.truthy s = true ↔ s ≠ [].
Proof. destruct s; simpl; split; congruence. Qed.

Lemma can_add_true (st : IngredientsList.State) :
  IngredientsList.can_add st = true
  ↔ JS.trim (IngredientsList.customIngredient st) ≠ []
    ∧ JS.trim (IngredientsList.customIngredient st)
      ∉ IngredientsList.editableIngredients st.
Proof.
  unfold IngredientsList.can_add.
  rewrite andb_true_iff, negb_true_iff, truthy_true.
  rewrite <- not_true_iff_false, includes_true. done.
Qed.

(** ** Ingredient edits *)

Lemma step_edit_frame (w : World) (e : Edit) :
  same_but_ingredients w (step w (edit_event e)).
Proof.
  unfold same_but_ingredients.
  destruct e; simpl; destruct (ingredientsList w) as [st|]; try done.
  - unfold IngredientsList.handleKeyPress. case_bool_decide; [|done].
    unfold IngredientsList.addCustomIngredient.
    by destruct (IngredientsList.can_add st).
  - unfold IngredientsList.addCustomIngredient.
    by destruct (IngredientsList.can_add st).
Qed.

Lemma same_but_ingredients_trans (w1 w2 w3 : World) :
  same_but_ingredients w1 w2 → same_but_ingredients w2 w3 →
  same_but_ingredients w1 w3.
Proof. unfold same_but_ingredients. intuition congruence. Qed.

(** C8. Whatever the page, a sequence of ingredient edits (typing in the box,
    the Enter key, the Add button, removing an entry) leaves the step, the
    recipes, the error and the busy flag as they were, and touches neither the
    pending timers nor the requests in flight: only the ingredient list and
    the local state of the list component can change. *)
Theorem edits_only_touch_ingredients (w : World) (edits : list Edit) :
  same_but_ingredients w (run w (edit_event <$> edits)).
Proof.
  revert w. induction edits as [|e edits IH]; intros w.
  - by unfold same_but_ingredients.
  - simpl. eapply same_but_ingredients_trans; [apply step_edit_frame | apply IH].
Qed.

Lemma addCustomIngredient_spec (typed : jsstring) (l : list jsstring) :
  IngredientsList.addCustomIngredient
    {| IngredientsList.customIngredient := typed;
       IngredientsList.editableIngredients := l |}
  = if bool_decide (JS.trim typed ≠ [] ∧ JS.trim typed ∉ l) then
      [ IngredientsList.setEditableIngredients (l ++ [JS.trim typed]);
        IngredientsList.onIngredientsUpdate (l ++ [JS.trim typed]);
        IngredientsList.setCustomIngredient [] ]
    else [].
Proof.
  unfold IngredientsList.addCustomIngredient.
  set (st := {| IngredientsList.customIngredient := typed |}).
  pose proof (can_add_true st) as Hcan. simpl in Hcan.
  destruct (IngredientsList.can_add st); case_bool_decide as Hd; try done.
  - exfalso. apply Hd. by apply Hcan.
  - apply Hcan in Hd. done.
Qed.

(** C7, as the claim states it, fails: the empty string is not in the list yet
    Add (or Enter on the empty box) makes no update, and a string typed with a
    leading blank is not appended as typed. *)
Lemma add_appends_typed_string_counterexample :
  ((lit "" ∉ tomato_onion)
   ∧ IngredientsList.addCustomIngredient
       {| IngredientsList.customIngredient := lit "";
          IngredientsList.editableIngredients := tomato_onion |} = [])
  ∧ ((lit " salt" ∉ tomato_onion)
     ∧ IngredientsList.addCustomIngredient
         {| IngredientsList.customIngredient := lit " salt";
            IngredientsList.editableIngredients := tomato_onion |}
       ≠ [ IngredientsList.setEditableIngredients (tomato_onion ++ [lit " salt"]);
           IngredientsList.onIngredientsUpdate (tomato_onion ++ [lit " salt"]);
           IngredientsList.setCustomIngredient [] ]).
Proof.
  repeat split.
  - apply (bool_decide_eq_false_1 (lit "" ∈ tomato_onion)). reflexivity.
  - apply (bool_decide_eq_false_1 (lit " salt" ∈ tomato_onion)). reflexivity.
  - vm_compute. discriminate.
Qed.

(** C7, amended. The add action trims the typed string; when the trimmed
    string is non-empty and not yet in the list it is appended at the end,
    otherwise nothing is updated.  The remove action at position [index]
    keeps the entries before it and those after it, in order.  From
    ["tomato","onion"], adding "salt" gives ["tomato","onion","salt"], and
    removing position 0 of that gives ["onion","salt"]. *)
Theorem add_trims_then_appends_remove_deletes
    (w : World) (typed : jsstring) (l : list jsstring) (index : nat) :
  IngredientsList.addCustomIngredient
    {| IngredientsList.customIngredient := typed;
       IngredientsList.editableIngredients := l |}
  = (if bool_decide (JS.trim typed ≠ [] ∧ JS.trim typed ∉ l) then
       [ IngredientsList.setEditableIngredients (l ++ [JS.trim typed]);
         IngredientsList.onIngredientsUpdate (l ++ [JS.trim typed]);
         IngredientsList.setCustomIngredient [] ]
     else [])
  ∧ RecipeSnap.ingredients
      (recipeSnap
         (run_ingredientsList
            (IngredientsList.addCustomIngredient
               {| IngredientsList.customIngredient := typed;
                  IngredientsList.editableIngredients := l |}) w))
    = (if bool_decide (JS.trim typed ≠ [] ∧ JS.trim typed ∉ l)
       then l ++ [JS.trim typed]
       else RecipeSnap.ingredients (recipeSnap w))
  ∧ IngredientsList.removeIngredient
      {| IngredientsList.customIngredient := typed;
         IngredientsList.editableIngredients := l |} index
    = [ IngredientsList.setEditableIngredients (take index l ++ drop (S index) l);
        IngredientsList.onIngredientsUpdate (take index l ++ drop (S index) l) ]
  ∧ RecipeSnap.ingredients
      (recipeSnap
         (run_ingredientsList
            (IngredientsList.removeIngredient
               {| IngredientsList.customIngredient := typed;
                  IngredientsList.editableIngredients := l |} index) w))
    = take index l ++ drop (S index) l
  ∧ IngredientsList.addCustomIngredient
      {| IngredientsList.customIngredient := lit "salt";
         IngredientsList.editableIngredients := tomato_onion |}
    = [ IngredientsList.setEditableIngredients (tomato_onion ++ [lit "salt"]);
        IngredientsList.onIngredientsUpdate (tomato_onion ++ [lit "salt"]);
        IngredientsList.setCustomIngredient [] ]
  ∧ IngredientsList.removed (tomato_onion ++ [lit "salt"]) 0
    = [lit "onion"; lit "salt"].
Proof.
  assert (IngredientsList.removed l index = take index l ++ drop (S index) l)
    as Hrem by (by rewrite removed_delete, delete_take_drop).
  split; [apply addCustomIngredient_spec|].
  split; [rewrite addCustomIngredient_spec; by case_bool_decide|].
  unfold IngredientsList.removeIngredient. simpl. rewrite Hrem.
  repeat split.
Qed.

(** ** Delivery of an analysis result, timers and reset *)

Lemma deliver_state (w : World) (r : AnalysisResult.t) :
  recipeSnap (run_recipeSnap (RecipeSnap.handleImageAnalysis r) w)
  = {| RecipeSnap.ingredients := AnalysisResult.ingredients r;
       RecipeSnap.recipes := AnalysisResult.recipes r;
       RecipeSnap.loading := RecipeSnap.loading (recipeSnap w);
       RecipeSnap.error := RecipeSnap.error (recipeSnap w);
       RecipeSnap.currentStep :=
         match AnalysisResult.ingredients r with
         | [] => RecipeSnap.currentStep (recipeSnap w)
         | _ :: _ => Ingredients
         end |}.
Proof. by destruct r as [[|i ings] [|rc recs]]. Qed.

Lemma deliver_timers (w : World) (r : AnalysisResult.t) :
  timers (run_recipeSnap (RecipeSnap.handleImageAnalysis r) w)
  = timers w
    ++ match AnalysisResult.ingredients r, AnalysisResult.recipes r with
       | _ :: _, _ :: _ =>
           [ {| due := now w + 1000;
                callback := [RecipeSnap.setCurrentStep Recipes] |} ]
       | _, _ => []
       end.
Proof. destruct r as [[|i ings] [|rc recs]]; simpl; by rewrite ?app_nil_r. Qed.

Lemma deliver_now (w : World) (r : AnalysisResult.t) :
  now (run_recipeSnap (RecipeSnap.handleImageAnalysis r) w) = now w.
Proof. by destruct r as [[|i ings] [|rc recs]]. Qed.

Lemma reset_state (w : World) :
  recipeSnap (run_recipeSnap RecipeSnap.resetApp w)
  = {| RecipeSnap.ingredients := []; RecipeSnap.recipes := [];
       RecipeSnap.loading := RecipeSnap.loading (recipeSnap w);
       RecipeSnap.error := None; RecipeSnap.currentStep := Upload |}.
Proof. reflexivity. Qed.

Lemma elapse_no_timers (ms : N) (w : World) :
  timers w = [] →
  recipeSnap (elapse ms w) = recipeSnap w ∧ timers (elapse ms w) = [] ∧
  now (elapse ms w) = now w + ms.
Proof. intros Ht. unfold elapse. rewrite Ht. done. Qed.

(** One pending timer that sets the step: it fires exactly when its due time
    is reached. *)
Lemma elapse_one_timer (ms : N) (w : World) (t : N) (s : Step) :
  timers w = [ {| due := t; callback := [RecipeSnap.setCurrentStep s] |} ] →
  (now w + ms < t →
   recipeSnap (elapse ms w) = recipeSnap w ∧ timers (elapse ms w) = timers w)
  ∧ (t ≤ now w + ms →
     RecipeSnap.currentStep (recipeSnap (elapse ms w)) = s
     ∧ timers (elapse ms w) = []).
Proof.
  intros Ht. unfold elapse. rewrite Ht. simpl. unfold is_due. simpl.
  split; intros Hlt.
  - apply N.leb_gt in Hlt. rewrite Hlt. done.
  - apply N.leb_le in Hlt. rewrite Hlt. done.
Qed.

Lemma waits_no_timers (w : World) (waits : list N) :
  timers w = [] → recipeSnap (run w (wait <$> waits)) = recipeSnap w.
Proof.
  revert w. induction waits as [|ms waits IH]; intros w Ht; [done|].
  simpl. destruct (elapse_no_timers ms w Ht) as (Ha & Ht' & _).
  rewrite IH by done. done.
Qed.

Lemma now_run_setters (cb : list RecipeSnap.Setter) (w : World) :
  now (run_recipeSnap (RecipeSnap.set <$> cb) w) = now w
  ∧ timers (run_recipeSnap (RecipeSnap.set <$> cb) w) = timers w.
Proof.
  unfold run_recipeSnap.
  change (now (foldl call_recipeSnap w (RecipeSnap.set <$> cb)) = now w
          ∧ timers (foldl call_recipeSnap w (RecipeSnap.set <$> cb)) = timers w).
  revert w. induction cb as [|s cb IH]; intros w; [done|].
  change (RecipeSnap.set <$> s :: cb)
    with (RecipeSnap.set s :: (RecipeSnap.set <$> cb)).
  cbn [foldl].
  destruct (IH (call_recipeSnap w (RecipeSnap.set s))) as [-> ->]. done.
Qed.

Lemma now_elapse (ms : N) (w : World) : now (elapse ms w) = now w + ms.
Proof.
  unfold elapse.
  generalize (List.filter (is_due (now w + ms)) (timers w)) as fired.
  generalize (List.filter (λ tm, negb (is_due (now w + ms) tm)) (timers w)).
  intros waiting fired.
  assert (∀ w0,
            now (foldl (λ w tm, run_recipeSnap (RecipeSnap.set <$> callback tm) w)
                       w0 fired) = now w0) as Hfold.
  { induction fired as [|tm fired IH]; intros w0; [done|].
    simpl. rewrite IH. apply now_run_setters. }
  by rewrite Hfold.
Qed.

(** C1. On a page in the upload step with no timer pending, as at the start:
    a result with no ingredients leaves the step at upload, however long one
    waits; a result with ingredients and no recipes moves the step to
    ingredients and schedules nothing, so the step stays there however long
    one waits; a result with both moves the step to ingredients and schedules
    one timer due 1000 ms later which, when it fires, moves the step to
    recipes. *)
Theorem delivery_from_upload (w : World) (r : AnalysisResult.t) :
  RecipeSnap.currentStep (recipeSnap w) = Upload →
  timers w = [] →
  match AnalysisResult.ingredients r, AnalysisResult.recipes r with
  | [], _ =>
      ∀ waits, RecipeSnap.currentStep
                 (recipeSnap (run (deliver r w) (wait <$> waits))) = Upload
  | _ :: _, [] =>
      timers (deliver r w) = []
      ∧ ∀ waits, RecipeSnap.currentStep
                   (recipeSnap (run (deliver r w) (wait <$> waits))) = Ingredients
  | _ :: _, _ :: _ =>
      RecipeSnap.currentStep (recipeSnap (deliver r w)) = Ingredients
      ∧ timers (deliver r w)
        = [ {| due := now w + 1000;
               callback := [RecipeSnap.setCurrentStep Recipes] |} ]
      ∧ ∀ ms,
          (ms < 1000 →
           RecipeSnap.currentStep (recipeSnap (elapse ms (deliver r w)))
           = Ingredients)
          ∧ (1000 ≤ ms →
             RecipeSnap.currentStep (recipeSnap (elapse ms (deliver r w)))
             = Recipes)
  end.
Proof.
  intros Hstep Ht.
  pose proof (deliver_state w r) as Ha.
  pose proof (deliver_timers w r) as Hts.
  pose proof (deliver_now w r) as Hn.
  fold (deliver r w) in Ha, Hts, Hn. rewrite Ht in Hts.
  destruct (AnalysisResult.ingredients r) as [|i ings],
           (AnalysisResult.recipes r) as [|rc recs];
    change (timers (deliver r w) = []) in Hts
    || change (timers (deliver r w)
               = [ {| due := now w + 1000;
                      callback := [RecipeSnap.setCurrentStep Recipes] |} ])
         in Hts.
  - intros waits. rewrite waits_no_timers by exact Hts. by rewrite Ha.
  - intros waits. rewrite waits_no_timers by exact Hts. by rewrite Ha.
  - split; [exact Hts|]. intros waits.
    rewrite waits_no_timers by exact Hts. by rewrite Ha.
  - split; [by rewrite Ha|]. split; [done|]. intros ms.
    destruct (elapse_one_timer ms _ _ _ Hts) as [Hbefore Hafter].
    rewrite Hn in Hbefore, Hafter. split; intros Hms.
    + destruct Hbefore as [-> _]; [lia|]. by rewrite Ha.
    + apply Hafter. lia.
Qed.

Lemma delivery_from_upload_witness :
  (∀ waits, RecipeSnap.currentStep
              (recipeSnap (run (deliver no_ingredients (start None))
                               (wait <$> waits))) = Upload)
  ∧ (∀ waits, RecipeSnap.currentStep
                (recipeSnap (run (deliver ingredients_only (start None))
                                 (wait <$> waits))) = Ingredients)
  ∧ RecipeSnap.currentStep
      (recipeSnap (elapse 1000 (deliver ingredients_and_recipes (start None))))
    = Recipes.
Proof.
  split; [|split].
  - exact (delivery_from_upload (start None) no_ingredients eq_refl eq_refl).
  - exact (proj2 (delivery_from_upload (start None) ingredients_only
                    eq_refl eq_refl)).
  - apply (delivery_from_upload (start None) ingredients_and_recipes
             eq_refl eq_refl).
    lia.
Defined.

(** C10. Whatever the page and whatever the result, [handleImageAnalysis]
    first calls [setIngredients] and [setRecipes] with the two sequences of the
    payload, before the tests on their lengths, so afterwards the stored lists
    are those of the payload.  A result with no ingredients therefore leaves
    the step where it was (at upload, when it was there) and still overwrites
    both stored lists. *)
Theorem delivery_replaces_stored_lists
    (w : World) (r : AnalysisResult.t) (recs : list Recipe.t) :
  (∃ guarded,
     RecipeSnap.handleImageAnalysis r
     = RecipeSnap.set (RecipeSnap.setIngredients (AnalysisResult.ingredients r))
       :: RecipeSnap.set (RecipeSnap.setRecipes (AnalysisResult.recipes r))
       :: guarded)
  ∧ RecipeSnap.ingredients (recipeSnap (deliver r w))
    = AnalysisResult.ingredients r
  ∧ RecipeSnap.recipes (recipeSnap (deliver r w)) = AnalysisResult.recipes r
  ∧ recipeSnap
      (deliver {| AnalysisResult.ingredients := [];
                  AnalysisResult.recipes := recs |} w)
    = {| RecipeSnap.ingredients := [];
         RecipeSnap.recipes := recs;
         RecipeSnap.loading := RecipeSnap.loading (recipeSnap w);
         RecipeSnap.error := RecipeSnap.error (recipeSnap w);
         RecipeSnap.currentStep := RecipeSnap.currentStep (recipeSnap w) |}
  ∧ timers
      (deliver {| AnalysisResult.ingredients := [];
                  AnalysisResult.recipes := recs |} w)
    = timers w.
Proof.
  split; [by eexists|].
  unfold deliver. rewrite !deliver_state, deliver_timers. simpl.
  by rewrite app_nil_r.
Qed.

(** C2, as the claim states it, fails: in the session [reset_analyze_then_wait]
    the page ends in the recipes step with the busy flag set, the Start Over
    button is drawn, and clicking it leaves the busy flag set. *)
Lemma reset_leaves_busy_counterexample :
  RecipeSnap.shows_start_over
    (recipeSnap (run (start None) reset_analyze_then_wait)) = true
  ∧ recipeSnap (step (run (start None) reset_analyze_then_wait) click_start_over)
    = {| RecipeSnap.ingredients := []; RecipeSnap.recipes := [];
         RecipeSnap.loading := true; RecipeSnap.error := None;
         RecipeSnap.currentStep := Upload |}
  ∧ recipeSnap (reset (run (start None) reset_analyze_then_wait))
    ≠ RecipeSnap.initial.
Proof. split; [|split]; [reflexivity | reflexivity | discriminate]. Qed.

(** C2, amended. From any page, Reset gives the upload step, an empty
    ingredient list, an empty recipe list and no error message, and leaves the
    busy flag as it was. *)
Theorem reset_clears_all_but_busy (w : World) :
  recipeSnap (reset w)
  = {| RecipeSnap.ingredients := []; RecipeSnap.recipes := [];
       RecipeSnap.loading := RecipeSnap.loading (recipeSnap w);
       RecipeSnap.error := None; RecipeSnap.currentStep := Upload |}.
Proof. apply reset_state. Qed.

(** C3, as the claim states it, fails: in the session [reset_then_wait] the
    step is upload right after Start Over, and recipes half a second later,
    set by the timer of the analysis that preceded the reset. *)
Lemma reset_does_not_cancel_counterexample :
  RecipeSnap.currentStep
    (recipeSnap (run (start None) (take 5 reset_then_wait))) = Upload
  ∧ RecipeSnap.currentStep (recipeSnap (run (start None) reset_then_wait))
    ≠ Upload
  ∧ recipeSnap (run (start None) reset_then_wait)
    = {| RecipeSnap.ingredients := []; RecipeSnap.recipes := [];
         RecipeSnap.loading := false; RecipeSnap.error := None;
         RecipeSnap.currentStep := Recipes |}.
Proof. split; [|split]; [reflexivity | discriminate | reflexivity]. Qed.

(** C3, amended. A result with ingredients and recipes arrives on a page with
    no timer pending and Reset follows before the 1000 ms have passed.  Reset
    puts the step at upload and leaves the timer pending; the step stays at
    upload until the 1000 ms have passed, and then the timer fires and sets
    the step to recipes. *)
Theorem reset_keeps_pending_timer
    (w : World) (r : AnalysisResult.t) (before after : N) :
  timers w = [] →
  AnalysisResult.ingredients r ≠ [] →
  AnalysisResult.recipes r ≠ [] →
  before < 1000 →
  RecipeSnap.currentStep (recipeSnap (reset (elapse before (deliver r w))))
  = Upload
  ∧ timers (reset (elapse before (deliver r w)))
    = [ {| due := now w + 1000;
           callback := [RecipeSnap.setCurrentStep Recipes] |} ]
  ∧ (before + after < 1000 →
     RecipeSnap.currentStep
       (recipeSnap (elapse after (reset (elapse before (deliver r w)))))
     = Upload)
  ∧ (1000 ≤ before + after →
     RecipeSnap.currentStep
       (recipeSnap (elapse after (reset (elapse before (deliver r w)))))
     = Recipes).
Proof.
  intros Ht Hi Hr Hb.
  pose proof (deliver_timers w r) as Hts.
  pose proof (deliver_now w r) as Hn.
  fold (deliver r w) in Hts, Hn. rewrite Ht in Hts.
  destruct (AnalysisResult.ingredients r) as [|i ings]; [done|].
  destruct (AnalysisResult.recipes r) as [|rc recs]; [done|].
  change (timers (deliver r w)
          = [ {| due := now w + 1000;
                 callback := [RecipeSnap.setCurrentStep Recipes] |} ]) in Hts.
  destruct (elapse_one_timer before _ _ _ Hts) as [[_ Hts1] _]; [lia|].
  rewrite Hts in Hts1.
  pose proof (now_elapse before (deliver r w)) as Hn1. rewrite Hn in Hn1.
  set (w1 := elapse before (deliver r w)) in *.
  assert (timers (reset w1)
          = [ {| due := now w + 1000;
                 callback := [RecipeSnap.setCurrentStep Recipes] |} ]) as Hts2
    by exact Hts1.
  assert (now (reset w1) = now w + before) as Hn2 by exact Hn1.
  split; [reflexivity|]. split; [exact Hts2|].
  destruct (elapse_one_timer after _ _ _ Hts2) as [Hbefore Hafter].
  rewrite Hn2 in Hbefore, Hafter. split; intros Hsum.
  - destruct Hbefore as [-> _]; [lia|]. reflexivity.
  - apply Hafter. lia.
Qed.

Lemma reset_keeps_pending_timer_witness :
  RecipeSnap.currentStep
    (recipeSnap (reset (elapse 500 (deliver ingredients_and_recipes (start None)))))
  = Upload
  ∧ RecipeSnap.currentStep
      (recipeSnap
         (elapse 500
            (reset (elapse 500 (deliver ingredients_and_recipes (start None))))))
    = Recipes.
Proof.
  assert (500 < 1000) as Hb by lia.
  assert (AnalysisResult.ingredients ingredients_and_recipes ≠ []) as Hi
    by discriminate.
  assert (AnalysisResult.recipes ingredients_and_recipes ≠ []) as Hr
    by discriminate.
  destruct (reset_keeps_pending_timer (start None) ingredients_and_recipes
              500 500 eq_refl Hi Hr Hb) as (Hup & _ & _ & Hfire).
  split; [exact Hup|]. apply Hfire. lia.
Defined.

(** ** The analysis client *)










Lemma resume_clears_loading (w : World) (settled : ImageUpload.Settled) :
  RecipeSnap.loading
    (recipeSnap (run_imageUpload (ImageUpload.analyzeImage_resume settled) w))
  = false.
Proof.
  destruct settled as [[[[|i ings] [|rc recs]]|]|error]; try done.
  simpl. by destruct (ImageUpload.failure_message error).
Qed.

Lemma resume_rejected (w : World) (error : ImageUpload.Failure) :
  recipeSnap
    (run_imageUpload
       (ImageUpload.analyzeImage_resume (ImageUpload.rejected error)) w)
  = {| RecipeSnap.ingredients := RecipeSnap.ingredients (recipeSnap w);
       RecipeSnap.recipes := RecipeSnap.recipes (recipeSnap w);
       RecipeSnap.loading := false;
       RecipeSnap.error :=
         match ImageUpload.failure_message error with
         | Some m => Some m
         | None => RecipeSnap.error (recipeSnap w)
         end;
       RecipeSnap.currentStep := RecipeSnap.currentStep (recipeSnap w) |}.
Proof. simpl. by destruct (ImageUpload.failure_message error). Qed.

Lemma timeout_failure_message (error : ImageUpload.Failure) :
  ImageUpload.code error = Some (lit "ECONNABORTED") →
  ImageUpload.failure_message error
  = Some (lit "Request timed out. Please try again with a smaller image.").
Proof.
  intros Hcode. unfold ImageUpload.failure_message.
  by rewrite bool_decide_eq_true_2.
Qed.

(** C5. With an image selected, [analyzeImage] turns the busy flag on and
    posts one request, whose time-out is 60000 ms.  When the request is
    rejected with the code by which axios reports that the wait was exceeded,
    the one outcome is the message "Request timed out. Please try again with
    a smaller image."; it becomes the error on the page, the step and the
    stored lists are as before, and the busy flag is off.  However the
    request settles, the last call of [analyzeImage] is [setLoading(false)]
    and the busy flag is off afterwards. *)
Theorem timeout_reports_and_clears_busy
    (w : World) (error : ImageUpload.Failure) (settled : ImageUpload.Settled)
    (env : option jsstring) (f : ImageUpload.File) :
  ImageUpload.code error = Some (lit "ECONNABORTED") →
  ImageUpload.analyzeImage_begin env {| ImageUpload.uploadedImage := Some f |}
  = [ ImageUpload.setLoading true;
      ImageUpload.axios_post
        {| ImageUpload.url := API_CONFIG.BASE_URL env ++ lit "/full-analysis";
           ImageUpload.file := f;
           ImageUpload.content_type := lit "multipart/form-data";
           ImageUpload.timeout := 60000 |} ]
  ∧ outcomes (ImageUpload.analyzeImage_resume (ImageUpload.rejected error))
    = [ ImageUpload.onError
          (lit "Request timed out. Please try again with a smaller image.") ]
  ∧ recipeSnap
      (run_imageUpload
         (ImageUpload.analyzeImage_resume (ImageUpload.rejected error)) w)
    = {| RecipeSnap.ingredients := RecipeSnap.ingredients (recipeSnap w);
         RecipeSnap.recipes := RecipeSnap.recipes (recipeSnap w);
         RecipeSnap.loading := false;
         RecipeSnap.error :=
           Some (lit "Request timed out. Please try again with a smaller image.");
         RecipeSnap.currentStep := RecipeSnap.currentStep (recipeSnap w) |}
  ∧ last (ImageUpload.analyzeImage_resume settled)
    = Some (ImageUpload.setLoading false)
  ∧ RecipeSnap.loading
      (recipeSnap (run_imageUpload (ImageUpload.analyzeImage_resume settled) w))
    = false.
Proof.
  intros Hcode. split; [reflexivity|].
  split; [simpl; by rewrite timeout_failure_message|].
  split; [by rewrite resume_rejected, timeout_failure_message|].
  split; [|apply resume_clears_loading].
  unfold ImageUpload.analyzeImage_resume. apply last_snoc.
Qed.

Lemma timeout_reports_and_clears_busy_witness :
  recipeSnap (run (start None) analysis_times_out)
  = {| RecipeSnap.ingredients := []; RecipeSnap.recipes := [];
       RecipeSnap.loading := false;
       RecipeSnap.error :=
         Some (lit "Request timed out. Please try again with a smaller image.");
       RecipeSnap.currentStep := Upload |}.
Proof.
  exact (proj1 (proj2 (proj2
           (timeout_reports_and_clears_busy
              (with_inflight (λ _, [])
                 (run (start None) (take 2 analysis_times_out)))
              timed_out (ImageUpload.rejected timed_out) None fridge_jpg
              eq_refl)))).
Defined.

(** C6, as the claim states it, fails: after the session [analysis_times_out]
    the time-out message is on the page; it is still there once the user has
    triggered a new analysis, and still there once that analysis has
    succeeded and the page shows the ingredients. *)
Lemma analysis_keeps_error_counterexample :
  RecipeSnap.error (recipeSnap (run (start None) analysis_times_out))
  = Some (lit "Request timed out. Please try again with a smaller image.")
  ∧ RecipeSnap.error
      (recipeSnap (run (start None) (analysis_times_out ++ [click_analyze])))
    ≠ None
  ∧ recipeSnap
      (run (start None)
           (analysis_times_out
            ++ [ click_analyze;
                 settle (ImageUpload.resolved (Some ingredients_only)) ]))
    = {| RecipeSnap.ingredients := tomato_onion; RecipeSnap.recipes := [];
         RecipeSnap.loading := false;
         RecipeSnap.error :=
           Some (lit "Request timed out. Please try again with a smaller image.");
         RecipeSnap.currentStep := Ingredients |}.
Proof. split; [|split]; [reflexivity | discriminate | reflexivity]. Qed.




(** * Further properties of the components *)

(** ** removeIngredient *)

(** X1. [removeIngredient] at a position inside the list shortens it by one;
    at a position past the end it hands back the list as it is.  Entries
    before the position keep their place, later ones move up by one. *)
Theorem removed_bounds (l : list jsstring) (index j : nat) :
  length (IngredientsList.removed l index)
  = (if decide (index < length l)%nat then pred (length l) else length l)
  ∧ IngredientsList.removed l index !! j
    = (if decide (j < index)%nat then l !! j else l !! S j)
  ∧ ((length l ≤ index)%nat → IngredientsList.removed l index = l).
Proof.
  rewrite removed_delete. split; [|split].
  - case_decide as Hi.
    + rewrite length_delete; [lia|]. by apply lookup_lt_is_Some_2.
    + rewrite delete_take_drop, take_ge, drop_ge by lia. by rewrite app_nil_r.
  - case_decide.
    + by apply list_lookup_delete_lt.
    + apply list_lookup_delete_ge. lia.
  - intros Hi.
    rewrite delete_take_drop, take_ge, drop_ge by lia. by rewrite app_nil_r.
Qed.

(** ** trim, as addCustomIngredient uses it *)

Lemma trimStart_blank_app (ws t : jsstring) :
  blank ws → JS.trimStart (ws ++ t) = JS.trimStart t.
Proof.
  induction 1 as [|c ws Hc _ IH]; [done|]. simpl. by rewrite Hc.
Qed.

Lemma trimStart_blank (ws : jsstring) : blank ws → JS.trimStart ws = [].
Proof.
  intros Hws. rewrite <- (app_nil_r ws). by rewrite trimStart_blank_app.
Qed.

Lemma trimStart_split (s : jsstring) :
  ∃ ws, blank ws ∧ s = ws ++ JS.trimStart s
        ∧ match JS.trimStart s with
          | [] => True
          | c :: _ => is_whitespace c = false
          end.
Proof.
  induction s as [|c s (ws & Hws & Hs & Hhd)].
  { exists []. split; [constructor|done]. }
  simpl. destruct (is_whitespace c) eqn:Hc.
  - exists (c :: ws). split; [by constructor|]. split; [|done].
    simpl. by f_equal.
  - exists []. split; [constructor|done].
Qed.

Lemma blank_reverse (ws : jsstring) : blank ws → blank (reverse ws).
Proof. unfold blank. by rewrite Forall_reverse. Qed.

Lemma trimEnd_app_blank (t ws : jsstring) :
  blank ws → JS.trimEnd (t ++ ws) = JS.trimEnd t.
Proof.
  intros Hws. unfold JS.trimEnd.
  by rewrite reverse_app, trimStart_blank_app by by apply blank_reverse.
Qed.

Lemma trimEnd_split (s : jsstring) :
  ∃ ws, blank ws ∧ s = JS.trimEnd s ++ ws
        ∧ match last (JS.trimEnd s) with
          | None => True
          | Some c => is_whitespace c = false
          end.
Proof.
  destruct (trimStart_split (reverse s)) as (ws & Hws & Hs & Hhd).
  exists (reverse ws). split; [by apply blank_reverse|].
  unfold JS.trimEnd. split.
  - rewrite <- reverse_app, <- Hs. by rewrite reverse_involutive.
  - rewrite last_reverse. by destruct (JS.trimStart (reverse s)).
Qed.

Lemma trim_split (s : jsstring) :
  ∃ ws1 ws2, blank ws1 ∧ blank ws2 ∧ s = ws1 ++ JS.trim s ++ ws2
             ∧ clean (JS.trim s).
Proof.
  destruct (trimStart_split s) as (ws1 & Hws1 & Hs & Hhd).
  destruct (trimEnd_split (JS.trimStart s)) as (ws2 & Hws2 & Ht & Hlast).
  exists ws1, ws2. fold (JS.trim s) in Ht, Hlast.
  split; [done|]. split; [done|]. split; [by rewrite <- Ht|].
  split; [|done].
  rewrite Ht in Hhd. by destruct (JS.trim s).
Qed.

Lemma trim_clean (ws1 t ws2 : jsstring) :
  blank ws1 → blank ws2 → clean t → JS.trim (ws1 ++ t ++ ws2) = t.
Proof.
  intros Hws1 Hws2 [Hhd Hlast]. unfold JS.trim.
  rewrite trimStart_blank_app by done.
  destruct t as [|c t].
  - simpl. by rewrite trimStart_blank.
  - simpl. rewrite Hhd.
    change (c :: t ++ ws2) with ((c :: t) ++ ws2).
    rewrite trimEnd_app_blank by done.
    unfold JS.trimEnd.
    destruct (last (c :: t)) as [d|] eqn:Hd; [|by apply last_None in Hd].
    apply last_Some in Hd as [t' Ht']. rewrite Ht', reverse_snoc. simpl.
    rewrite Hlast. by rewrite <- reverse_snoc, reverse_involutive.
Qed.

Lemma trim_idem (s : jsstring) : JS.trim (JS.trim s) = JS.trim s.
Proof.
  destruct (trim_split s) as (a & b & _ & _ & _ & Hclean).
  pose proof (trim_clean [] (JS.trim s) [] (Forall_nil_2 _) (Forall_nil_2 _)
                Hclean) as H.
  by rewrite app_nil_l, app_nil_r in H.
Qed.

(** X2. White space typed before or after the text makes no difference to
    [addCustomIngredient]: the padded text gives the very calls the bare
    text gives. *)
Theorem add_ignores_padding (ws1 typed ws2 : jsstring) (l : list jsstring) :
  blank ws1 → blank ws2 →
  IngredientsList.addCustomIngredient
    {| IngredientsList.customIngredient := ws1 ++ typed ++ ws2;
       IngredientsList.editableIngredients := l |}
  = IngredientsList.addCustomIngredient
      {| IngredientsList.customIngredient := typed;
         IngredientsList.editableIngredients := l |}.
Proof.
  intros Hws1 Hws2.
  assert (JS.trim (ws1 ++ typed ++ ws2) = JS.trim typed) as Htrim.
  { destruct (trim_split typed) as (a & b & Ha & Hb & Hs & Hclean).
    rewrite Hs at 1.
    replace (ws1 ++ (a ++ JS.trim typed ++ b) ++ ws2)
      with ((ws1 ++ a) ++ JS.trim typed ++ (b ++ ws2))
      by (by rewrite <- !app_assoc).
    apply trim_clean; [| |done]; unfold blank; by apply Forall_app. }
  unfold IngredientsList.addCustomIngredient, IngredientsList.can_add. simpl.
  by rewrite Htrim.
Qed.

Lemma add_ignores_padding_witness :
  IngredientsList.addCustomIngredient
    {| IngredientsList.customIngredient := lit "  " ++ lit "sea salt" ++ lit " ";
       IngredientsList.editableIngredients := tomato_onion |}
  = IngredientsList.addCustomIngredient
      {| IngredientsList.customIngredient := lit "sea salt";
         IngredientsList.editableIngredients := tomato_onion |}.
Proof.
  apply (add_ignores_padding (lit "  ") (lit "sea salt") (lit " ") tomato_onion).
  - repeat constructor.
  - repeat constructor.
Defined.

(** X3. Whenever [addCustomIngredient] updates the list, the entry it appends
    is not empty, has no white space at either end, and was not in the list;
    the other entries stay where they were and the box is emptied. *)
Theorem added_entry_is_clean (st : IngredientsList.State) :
  IngredientsList.addCustomIngredient st ≠ [] →
  ∃ t, IngredientsList.editableIngredients
         (list_after (IngredientsList.addCustomIngredient st) st)
       = IngredientsList.editableIngredients st ++ [t]
       ∧ t ≠ [] ∧ clean t ∧ (t ∉ IngredientsList.editableIngredients st)
       ∧ JS.trim t = t
       ∧ IngredientsList.customIngredient
           (list_after (IngredientsList.addCustomIngredient st) st) = [].
Proof.
  unfold IngredientsList.addCustomIngredient.
  destruct (IngredientsList.can_add st) eqn:Hcan; [|done]. intros _.
  apply can_add_true in Hcan as [Hne Hnotin].
  exists (JS.trim (IngredientsList.customIngredient st)).
  destruct (trim_split (IngredientsList.customIngredient st))
    as (a & b & _ & _ & _ & Hclean).
  repeat split; try done.
  - apply Hclean.
  - apply Hclean.
  - apply trim_idem.
Qed.

Lemma added_entry_is_clean_witness :
  ∃ t, tomato_onion ++ [lit "salt"] = tomato_onion ++ [t]
       ∧ t ≠ [] ∧ clean t ∧ (t ∉ tomato_onion) ∧ JS.trim t = t
       ∧ @nil N = [].
Proof.
  assert (IngredientsList.addCustomIngredient
            {| IngredientsList.customIngredient := lit " salt ";
               IngredientsList.editableIngredients := tomato_onion |} ≠ [])
    as Hadd by (vm_compute; discriminate).
  exact (added_entry_is_clean _ Hadd).
Defined.

(** X4. Adding is idempotent: once the add action has run on some text,
    running it again on text that trims to the same string makes no call,
    whether the first run appended the entry or rejected it. *)
Theorem add_twice_is_add_once (st : IngredientsList.State) (again : jsstring) :
  JS.trim again = JS.trim (IngredientsList.customIngredient st) →
  IngredientsList.addCustomIngredient
    {| IngredientsList.customIngredient := again;
       IngredientsList.editableIngredients :=
         IngredientsList.editableIngredients
           (list_after (IngredientsList.addCustomIngredient st) st) |}
  = [].
Proof.
  intros Htrim. rewrite addCustomIngredient_spec, Htrim.
  case_bool_decide as Hd; [|done].
  destruct Hd as [Hne Hnotin]. exfalso. apply Hnotin.
  unfold IngredientsList.addCustomIngredient.
  destruct (IngredientsList.can_add st) eqn:Hcan; simpl.
  - apply elem_of_app. right. by apply list_elem_of_singleton.
  - destruct (decide (JS.trim (IngredientsList.customIngredient st)
                      ∈ IngredientsList.editableIngredients st)); [done|].
    exfalso. apply not_true_iff_false in Hcan. apply Hcan.
    by apply can_add_true.
Qed.

Lemma add_twice_is_add_once_witness :
  IngredientsList.addCustomIngredient
    {| IngredientsList.customIngredient := lit "salt ";
       IngredientsList.editableIngredients := tomato_onion ++ [lit "salt"] |}
  = [].
Proof.
  exact (add_twice_is_add_once
           {| IngredientsList.customIngredient := lit " salt";
              IngredientsList.editableIngredients := tomato_onion |}
           (lit "salt ") eq_refl).
Defined.

(** ** The list component on the page *)

Lemma step_edit_calls (w : World) (e : Edit) :
  step w (edit_event e)
  = match ingredientsList w with
    | Some st => run_ingredientsList (edit_calls e st) w
    | None => w
    end.
Proof. by destruct e. Qed.

Lemma foldl_list_child (calls : list IngredientsList.Call) (w : World) :
  ingredientsList (foldl call_ingredientsList w calls)
  = list_after calls <$> ingredientsList w.
Proof.
  revert w. induction calls as [|c calls IH]; intros w; simpl.
  - by destruct (ingredientsList w).
  - rewrite IH. destruct c; simpl; by destruct (ingredientsList w).
Qed.

Lemma render_list_child (w : World) :
  ingredientsList (render w)
  = if RecipeSnap.shows_ingredients (recipeSnap w)
    then Some (default (IngredientsList.mount
                          (RecipeSnap.ingredients (recipeSnap w)))
                       (ingredientsList w))
    else None.
Proof. reflexivity. Qed.

(** What one edit can do to a mounted list: unmount it, leave both lists as
    they were, or set both lists to the old local list with one fresh entry
    appended or with one position removed. *)
Lemma step_edit_list (w : World) (e : Edit) (st : IngredientsList.State) :
  ingredientsList w = Some st →
  match ingredientsList (step w (edit_event e)) with
  | None => True
  | Some st' =>
      (IngredientsList.editableIngredients st'
       = IngredientsList.editableIngredients st
       ∧ RecipeSnap.ingredients (recipeSnap (step w (edit_event e)))
         = RecipeSnap.ingredients (recipeSnap w))
      ∨ (IngredientsList.editableIngredients st'
         = RecipeSnap.ingredients (recipeSnap (step w (edit_event e)))
         ∧ ((∃ t, IngredientsList.editableIngredients st'
                  = IngredientsList.editableIngredients st ++ [t]
                  ∧ t ∉ IngredientsList.editableIngredients st)
            ∨ (∃ i, IngredientsList.editableIngredients st'
                    = delete i (IngredientsList.editableIngredients st))))
  end.
Proof.
  intros Hst. rewrite step_edit_calls, Hst.
  unfold run_ingredientsList at 1. rewrite render_list_child, foldl_list_child.
  destruct (RecipeSnap.shows_ingredients _); [|done].
  rewrite Hst. simpl.
  assert (∀ calls,
            calls = IngredientsList.addCustomIngredient st →
            (IngredientsList.editableIngredients (list_after calls st)
             = IngredientsList.editableIngredients st
             ∧ RecipeSnap.ingredients
                 (recipeSnap (run_ingredientsList calls w))
               = RecipeSnap.ingredients (recipeSnap w))
            ∨ (IngredientsList.editableIngredients (list_after calls st)
               = RecipeSnap.ingredients
                   (recipeSnap (run_ingredientsList calls w))
               ∧ ((∃ t, IngredientsList.editableIngredients (list_after calls st)
                        = IngredientsList.editableIngredients st ++ [t]
                        ∧ t ∉ IngredientsList.editableIngredients st)
                  ∨ (∃ i, IngredientsList.editableIngredients
                            (list_after calls st)
                          = delete i (IngredientsList.editableIngredients st)))))
    as Hadd.
  { intros calls ->. unfold IngredientsList.addCustomIngredient.
    destruct (IngredientsList.can_add st) eqn:Hcan; [|by left].
    apply can_add_true in Hcan as [_ Hnotin].
    right. split; [done|]. left. by eexists. }
  destruct e as [value|key| |index]; simpl.
  - by left.
  - unfold IngredientsList.handleKeyPress. case_bool_decide; [|by left].
    by apply Hadd.
  - by apply Hadd.
  - right. split; [done|]. right. exists index. apply removed_delete.
Qed.

Lemma step_edit_unmounted (w : World) (e : Edit) :
  ingredientsList w = None → step w (edit_event e) = w.
Proof. intros Hst. by rewrite step_edit_calls, Hst. Qed.

(** X5. While the list component shows the list the controller holds, any
    sequence of edits keeps the two equal, so the count drawn under the list
    is the length of the controller's ingredient list. *)
Theorem edits_keep_list_in_sync (w : World) (edits : list Edit) :
  list_in_sync w → list_in_sync (run w (edit_event <$> edits)).
Proof.
  revert w. induction edits as [|e edits IH]; intros w Hsync; [done|].
  simpl. apply IH. unfold list_in_sync in *.
  destruct (ingredientsList w) as [st|] eqn:Hst.
  - pose proof (step_edit_list w e st Hst) as Hstep.
    destruct (ingredientsList (step w (edit_event e))) as [st'|]; [|done].
    destruct Hstep as [[-> ->]|[-> _]]; done.
  - by rewrite step_edit_unmounted, Hst.
Qed.

Lemma edits_keep_list_in_sync_witness :
  list_in_sync
    (run (deliver ingredients_only (start None))
         (edit_event <$> [edit_type (lit "salt"); edit_add; edit_remove 0])).
Proof.
  apply (edits_keep_list_in_sync (deliver ingredients_only (start None))).
  reflexivity.
Defined.

(** X6. A list without repeated entries stays without repeated entries under
    any sequence of edits. *)
Theorem edits_keep_list_nodup (w : World) (edits : list Edit) :
  list_nodup w → list_nodup (run w (edit_event <$> edits)).
Proof.
  revert w. induction edits as [|e edits IH]; intros w Hnd; [done|].
  simpl. apply IH. unfold list_nodup in *.
  destruct (ingredientsList w) as [st|] eqn:Hst.
  - pose proof (step_edit_list w e st Hst) as Hstep.
    destruct (ingredientsList (step w (edit_event e))) as [st'|]; [|done].
    destruct Hstep as [[-> _]|[_ [(t & -> & Ht)|(i & ->)]]]; [done| |].
    + apply NoDup_app. split; [done|]. split; [|apply NoDup_singleton].
      intros x Hx ->%list_elem_of_singleton. done.
    + eapply sublist_NoDup; [done|apply sublist_delete].
  - by rewrite step_edit_unmounted, Hst.
Qed.

Lemma edits_keep_list_nodup_witness :
  list_nodup
    (run (deliver ingredients_only (start None))
         (edit_event <$> [edit_type (lit "onion"); edit_add; edit_remove 5])).
Proof.
  apply (edits_keep_list_nodup (deliver ingredients_only (start None))).
  apply (bool_decide_unpack (NoDup tomato_onion)). exact I.
Defined.

(** X7. Removing the last entry takes the list component off the page, the
    step staying as it was; from then on no edit has any effect, so the list
    cannot be refilled by hand. *)
Theorem emptied_list_is_unmounted
    (w : World) (st : IngredientsList.State) (index : nat) (edits : list Edit) :
  ingredientsList w = Some st →
  IngredientsList.removed (IngredientsList.editableIngredients st) index = [] →
  ingredientsList (step w (click_remove index)) = None
  ∧ RecipeSnap.ingredients (recipeSnap (step w (click_remove index))) = []
  ∧ RecipeSnap.currentStep (recipeSnap (step w (click_remove index)))
    = RecipeSnap.currentStep (recipeSnap w)
  ∧ run (step w (click_remove index)) (edit_event <$> edits)
    = step w (click_remove index).
Proof.
  intros Hst Hempty.
  assert (ingredientsList (step w (click_remove index)) = None) as Hnone.
  { simpl. rewrite Hst. unfold IngredientsList.removeIngredient.
    rewrite Hempty. unfold run_ingredientsList. rewrite render_list_child.
    simpl. unfold RecipeSnap.shows_ingredients. simpl.
    by rewrite andb_false_r. }
  split; [done|]. split; [|split].
  - simpl. rewrite Hst. unfold IngredientsList.removeIngredient.
    by rewrite Hempty.
  - simpl. by rewrite Hst.
  - induction edits as [|e edits IH]; [done|].
    simpl. by rewrite step_edit_unmounted.
Qed.

Lemma emptied_list_is_unmounted_witness :
  ingredientsList
    (step (step (deliver ingredients_only (start None)) (click_remove 0))
          (click_remove 0)) = None
  ∧ run (step (step (deliver ingredients_only (start None)) (click_remove 0))
              (click_remove 0))
        (edit_event <$> [edit_type (lit "salt"); edit_add])
    = step (step (deliver ingredients_only (start None)) (click_remove 0))
           (click_remove 0).
Proof.
  assert (ingredientsList
            (step (deliver ingredients_only (start None)) (click_remove 0))
          = Some {| IngredientsList.customIngredient := [];
                    IngredientsList.editableIngredients := [lit "onion"] |})
    as Hst by (vm_compute; reflexivity).
  assert (IngredientsList.removed [lit "onion"] 0 = []) as Hempty
    by (vm_compute; reflexivity).
  destruct (emptied_list_is_unmounted _ _ 0
              [edit_type (lit "salt"); edit_add] Hst Hempty)
    as (Hnone & _ & _ & Hrun).
  split; [exact Hnone | exact Hrun].
Defined.

(** X8. The list component reads the controller's list only when it is
    mounted.  When a further analysis result arrives while it is on the page,
    the controller holds the new ingredients and the step is ingredients, but
    the component keeps its old list; the next removal then writes the old
    list, less one entry, over the new ingredients. *)
Theorem second_result_leaves_list_stale
    (w : World) (st : IngredientsList.State) (r : AnalysisResult.t)
    (index : nat) :
  ingredientsList w = Some st →
  AnalysisResult.ingredients r ≠ [] →
  ingredientsList (deliver r w) = Some st
  ∧ RecipeSnap.ingredients (recipeSnap (deliver r w))
    = AnalysisResult.ingredients r
  ∧ RecipeSnap.currentStep (recipeSnap (deliver r w)) = Ingredients
  ∧ RecipeSnap.ingredients
      (recipeSnap (step (deliver r w) (click_remove index)))
    = IngredientsList.removed (IngredientsList.editableIngredients st) index.
Proof.
  intros Hst Hne.
  assert (ingredientsList (deliver r w) = Some st) as Hkeep.
  { unfold deliver, run_recipeSnap. rewrite render_list_child.
    destruct r as [[|i ings] recs]; [done|].
    destruct recs as [|rc recs]; simpl; by rewrite Hst. }
  split; [done|].
  unfold deliver at 1 2. rewrite deliver_state.
  destruct (AnalysisResult.ingredients r) as [|i ings] eqn:Hi; [done|].
  split; [done|]. split; [done|].
  rewrite (step_edit_calls _ (edit_remove index)), Hkeep. reflexivity.
Qed.

Lemma second_result_leaves_list_stale_witness :
  ingredientsList
    (deliver second_result (deliver ingredients_only (start None)))
  = Some (IngredientsList.mount tomato_onion)
  ∧ RecipeSnap.ingredients
      (recipeSnap
         (deliver second_result (deliver ingredients_only (start None))))
    = AnalysisResult.ingredients second_result
  ∧ RecipeSnap.ingredients
      (recipeSnap
         (step (deliver second_result (deliver ingredients_only (start None)))
               (click_remove 0)))
    = IngredientsList.removed
        (IngredientsList.editableIngredients
           (IngredientsList.mount tomato_onion)) 0.
Proof.
  assert (ingredientsList (deliver ingredients_only (start None))
          = Some (IngredientsList.mount tomato_onion)) as Hst
    by (vm_compute; reflexivity).
  assert (AnalysisResult.ingredients second_result ≠ []) as Hne
    by discriminate.
  destruct (second_result_leaves_list_stale _ _ second_result 0 Hst Hne)
    as (Hkeep & Hnew & _ & Hover).
  split; [exact Hkeep|]. split; [exact Hnew | exact Hover].
Defined.

(** X9. Reset takes the list component off the page, so a result with
    ingredients that arrives after a Reset mounts it afresh: its list is
    exactly the ingredients of that result and its text box is empty. *)
Theorem result_after_reset_mounts_fresh_list (w : World) (r : AnalysisResult.t) :
  AnalysisResult.ingredients r ≠ [] →
  ingredientsList (reset w) = None
  ∧ ingredientsList (deliver r (reset w))
    = Some {| IngredientsList.customIngredient := [];
              IngredientsList.editableIngredients :=
                AnalysisResult.ingredients r |}
  ∧ RecipeSnap.ingredients (recipeSnap (deliver r (reset w)))
    = AnalysisResult.ingredients r.
Proof.
  intros Hne. split; [done|]. split.
  - destruct r as [[|i ings] recs]; [done|]. by destruct recs.
  - unfold deliver. by rewrite deliver_state.
Qed.

Lemma result_after_reset_mounts_fresh_list_witness :
  ingredientsList
    (deliver second_result (reset (deliver ingredients_only (start None))))
  = Some {| IngredientsList.customIngredient := [];
            IngredientsList.editableIngredients :=
              [lit "egg"; lit "milk"; lit "flour"] |}.
Proof.
  assert (AnalysisResult.ingredients second_result ≠ []) as Hne
    by discriminate.
  exact (proj1 (proj2 (result_after_reset_mounts_fresh_list
                         (deliver ingredients_only (start None))
                         second_result Hne))).
Defined.

(** A double click on Analyze reaches such a page: both requests settle, the
    controller holds the second result and the list still shows the first. *)
Example double_submit_is_stale :
  RecipeSnap.ingredients (recipeSnap (run (start None) double_submit))
  = AnalysisResult.ingredients second_result
  ∧ ingredientsList (run (start None) double_submit)
    = Some (IngredientsList.mount tomato_onion).
Proof. vm_compute. done. Qed.

(** ** Invariants of every session *)

Lemma render_rendered (w : World) : rendered (render w).
Proof.
  unfold rendered, render. simpl.
  destruct (RecipeSnap.shows_upload (recipeSnap w)),
           (RecipeSnap.shows_ingredients (recipeSnap w));
    split; split; intros H; try done; try (by eexists); by destruct H.
Qed.

Lemma fired_rendered (fired : list Timer) (w : World) :
  rendered w →
  rendered (foldl (λ w tm, run_recipeSnap (RecipeSnap.set <$> callback tm) w)
                  w fired).
Proof.
  revert w. induction fired as [|tm fired IH]; intros w Hw; [done|].
  simpl. apply IH. apply render_rendered.
Qed.

Lemma step_rendered (w : World) (e : Event) : rendered w → rendered (step w e).
Proof.
  intros Hw. destruct e; simpl;
    repeat match goal with
           | |- rendered (match ?x with _ => _ end) => destruct x
           | |- rendered (if ?x then _ else _) => destruct x
           end;
    try done; try apply render_rendered.
  unfold elapse. by apply fired_rendered.
Qed.

Lemma elapse_timers (ms : N) (w : World) :
  timers (elapse ms w)
  = List.filter (λ tm, negb (is_due (now w + ms) tm)) (timers w).
Proof.
  unfold elapse.
  generalize (List.filter (is_due (now w + ms)) (timers w)) as fired.
  generalize (List.filter (λ tm, negb (is_due (now w + ms) tm)) (timers w)).
  intros waiting fired.
  assert (∀ w0,
            timers (foldl (λ w tm, run_recipeSnap
                                     (RecipeSnap.set <$> callback tm) w)
                          w0 fired) = timers w0) as Hfold.
  { induction fired as [|tm fired IH]; intros w0; [done|].
    simpl. rewrite IH. apply now_run_setters. }
  by rewrite Hfold.
Qed.

(** Firing pacing timers changes nothing but the step. *)
Lemma fired_pacing (fired : list Timer) (w : World) :
  Forall (λ tm, callback tm = [RecipeSnap.setCurrentStep Recipes]) fired →
  RecipeSnap.loading
    (recipeSnap (foldl (λ w tm, run_recipeSnap (RecipeSnap.set <$> callback tm) w)
                       w fired))
  = RecipeSnap.loading (recipeSnap w)
  ∧ inflight (foldl (λ w tm, run_recipeSnap (RecipeSnap.set <$> callback tm) w)
                    w fired)
    = inflight w
  ∧ RecipeSnap.error
      (recipeSnap (foldl (λ w tm, run_recipeSnap (RecipeSnap.set <$> callback tm) w)
                         w fired))
    = RecipeSnap.error (recipeSnap w).
Proof.
  intros Hf. revert w. induction Hf as [|tm fired Htm _ IH]; intros w; [done|].
  simpl. destruct (IH (run_recipeSnap (RecipeSnap.set <$> callback tm) w))
    as (-> & -> & ->).
  by rewrite Htm.
Qed.

Lemma Forall_list_filter {A} (P : A → Prop) (f : A → bool) (l : list A) :
  Forall P l → Forall P (List.filter f l).
Proof.
  induction 1 as [|x l Hx _ IH]; simpl; [constructor|].
  destruct (f x); [by constructor | done].
Qed.

Lemma StronglySorted_list_filter {A} (R : A → A → Prop) (f : A → bool)
    (l : list A) :
  StronglySorted R l → StronglySorted R (List.filter f l).
Proof.
  induction 1 as [|x l _ IH Hx]; simpl; [constructor|].
  destruct (f x); [|done]. constructor; [done|].
  by apply Forall_list_filter.
Qed.

(** What an event other than the passing of time does to the clock and to
    the pending timers: the clock stands, and at most pacing timers due in
    1000 ms are appended. *)
Lemma step_timers (w : World) (e : Event) :
  (∀ ms, e ≠ wait ms) →
  now (step w e) = now w
  ∧ ∃ extra, timers (step w e) = timers w ++ extra
             ∧ Forall (λ tm, callback tm = [RecipeSnap.setCurrentStep Recipes]
                             ∧ due tm = now w + 1000) extra.
Proof.
  intros Hwait.
  assert (now w = now w ∧ ∃ extra, timers w = timers w ++ extra
             ∧ Forall (λ tm, callback tm = [RecipeSnap.setCurrentStep Recipes]
                             ∧ due tm = now w + 1000) extra) as Hsame.
  { split; [done|]. exists []. by rewrite app_nil_r. }
  destruct e as [files| | |settled|value|key| |index| | |ms].
  - simpl. destruct (imageUpload w); [|done]. by destruct files.
  - simpl. by destruct (imageUpload w).
  - simpl. destruct (imageUpload w) as [st|]; [|done].
    unfold ImageUpload.analyzeImage_begin.
    by destruct (ImageUpload.uploadedImage st).
  - simpl. destruct (inflight w) as [|req rest]; [done|].
    destruct settled as [[[[|i ings] [|rc recs]]|]|error]; simpl;
      try done.
    + split; [done|]. eexists. split; [done|]. by repeat constructor.
    + by destruct (ImageUpload.failure_message error).
  - destruct (step_edit_frame w (edit_type value)) as (_&_&_&_&Ht&_&Hn).
    split; [done|]. exists []. by rewrite app_nil_r.
  - destruct (step_edit_frame w (edit_key key)) as (_&_&_&_&Ht&_&Hn).
    split; [done|]. exists []. by rewrite app_nil_r.
  - destruct (step_edit_frame w edit_add) as (_&_&_&_&Ht&_&Hn).
    split; [done|]. exists []. by rewrite app_nil_r.
  - destruct (step_edit_frame w (edit_remove index)) as (_&_&_&_&Ht&_&Hn).
    split; [done|]. exists []. by rewrite app_nil_r.
  - simpl. by destruct (RecipeSnap.shows_error (recipeSnap w)).
  - simpl. by destruct (RecipeSnap.shows_start_over (recipeSnap w)).
  - by destruct (Hwait ms).
Qed.

Lemma step_timers_ok (w : World) (e : Event) :
  timers_ok w → timers_ok (step w e).
Proof.
  intros [Hp Hs]. unfold timers_ok.
  assert ((∃ ms, e = wait ms) ∨ (∀ ms, e ≠ wait ms)) as [[ms ->]|Hwait]
    by (destruct e; eauto).
  - simpl. rewrite elapse_timers. split.
    + apply Forall_list_filter. eapply Forall_impl; [done|].
      intros tm [Hcb Hdue]. split; [done|]. rewrite now_elapse. lia.
    + by apply StronglySorted_list_filter.
  - destruct (step_timers w e Hwait) as (Hn & extra & -> & Hextra).
    split.
    + apply Forall_app. split.
      * eapply Forall_impl; [done|]. intros tm [Hcb Hdue].
        split; [done|]. by rewrite Hn.
      * eapply Forall_impl; [done|]. intros tm [Hcb Hdue].
        split; [done|]. rewrite Hn. lia.
    + apply StronglySorted_app. split; [|split].
      * intros a b Ha Hb.
        apply (proj1 (Forall_forall _ _) Hp) in Ha as [_ Ha].
        apply (proj1 (Forall_forall _ _) Hextra) in Hb as [_ Hb]. lia.
      * done.
      * clear -Hextra. induction Hextra as [|tm extra [_ Htm] Hrest IH];
          constructor; [done|].
        eapply Forall_impl; [done|]. intros tm' [_ Htm']. simpl in *. lia.
Qed.

Lemma elapse_busy (ms : N) (w : World) :
  timers_ok w →
  RecipeSnap.loading (recipeSnap (elapse ms w))
  = RecipeSnap.loading (recipeSnap w)
  ∧ inflight (elapse ms w) = inflight w
  ∧ RecipeSnap.error (recipeSnap (elapse ms w))
    = RecipeSnap.error (recipeSnap w).
Proof.
  intros [Hp _]. unfold elapse.
  apply (fired_pacing
           (List.filter (is_due (now w + ms)) (timers w))
           (with_now (now w + ms)
              (with_timers
                 (λ _, List.filter (λ tm, negb (is_due (now w + ms) tm))
                                   (timers w)) w))).
  apply Forall_list_filter. eapply Forall_impl; [done|]. by intros tm [? _].
Qed.

Lemma step_busy_ok (w : World) (e : Event) :
  timers_ok w → busy_ok w → busy_ok (step w e).
Proof.
  intros Ht Hb. unfold busy_ok in *.
  destruct e as [files| | |settled|value|key| |index| | |ms].
  - simpl. destruct (imageUpload w); [|done]. by destruct files.
  - simpl. by destruct (imageUpload w).
  - simpl. destruct (imageUpload w) as [st|]; [|done].
    unfold ImageUpload.analyzeImage_begin.
    destruct (ImageUpload.uploadedImage st); simpl; [|by intros [=]].
    intros _. by destruct (inflight w).
  - assert (inflight w = [] ∨ ∃ req rest, inflight w = req :: rest)
      as [Hfl|(req & rest & Hfl)] by (destruct (inflight w); eauto);
      simpl; rewrite Hfl; [exact Hb|].
    destruct settled as [[[[|i ings] [|rc recs]]|]|error];
      try by intros [=].
    simpl. destruct (ImageUpload.failure_message error); by intros [=].
  - destruct (step_edit_frame w (edit_type value)) as (_&_&_&Hl&_&Hf&_).
    unfold edit_event in Hl, Hf. by rewrite Hl, Hf.
  - destruct (step_edit_frame w (edit_key key)) as (_&_&_&Hl&_&Hf&_).
    unfold edit_event in Hl, Hf. by rewrite Hl, Hf.
  - destruct (step_edit_frame w edit_add) as (_&_&_&Hl&_&Hf&_).
    unfold edit_event in Hl, Hf. by rewrite Hl, Hf.
  - destruct (step_edit_frame w (edit_remove index)) as (_&_&_&Hl&_&Hf&_).
    unfold edit_event in Hl, Hf. by rewrite Hl, Hf.
  - simpl. by destruct (RecipeSnap.shows_error (recipeSnap w)).
  - simpl. by destruct (RecipeSnap.shows_start_over (recipeSnap w)).
  - simpl. by destruct (elapse_busy ms w Ht) as (-> & -> & _).
Qed.

Lemma run_invariants (w : World) (events : list Event) :
  rendered w → timers_ok w → busy_ok w →
  rendered (run w events) ∧ timers_ok (run w events) ∧ busy_ok (run w events).
Proof.
  revert w. induction events as [|e events IH]; intros w Hr Ht Hb; [done|].
  simpl. apply IH;
    [by apply step_rendered | by apply step_timers_ok | by apply step_busy_ok].
Qed.

Lemma start_invariants (e : option jsstring) :
  rendered (start e) ∧ timers_ok (start e) ∧ busy_ok (start e).
Proof.
  split; [|split].
  - split; split; intros H; try done; try (by eexists); by destruct H.
  - split; constructor.
  - done.
Qed.

(** X10. In every session the busy flag is on only while a request is in
    flight: whatever the user does and however requests settle, once no
    request is in flight the spinner is off. *)
Theorem busy_only_while_in_flight (e : option jsstring) (events : list Event) :
  inflight (run (start e) events) = [] →
  RecipeSnap.loading (recipeSnap (run (start e) events)) = false.
Proof.
  intros Hnone.
  destruct (start_invariants e) as (Hr & Ht & Hb).
  destruct (run_invariants (start e) events Hr Ht Hb) as (_ & _ & Hbusy).
  apply not_true_is_false. intros Hl. by apply (Hbusy Hl).
Qed.

Lemma busy_only_while_in_flight_witness :
  RecipeSnap.loading (recipeSnap (run (start None) double_submit)) = false.
Proof.
  apply (busy_only_while_in_flight None double_submit).
  vm_compute. reflexivity.
Defined.

(** X11. In every session the only timers ever pending are pacing
    transitions: each does nothing but set the step to recipes, each is due at
    most 1000 ms ahead, and they are listed in order of due time. *)
Theorem timers_are_pacing_transitions
    (e : option jsstring) (events : list Event) :
  timers_ok (run (start e) events).
Proof.
  destruct (start_invariants e) as (Hr & Ht & Hb).
  by destruct (run_invariants (start e) events Hr Ht Hb) as (_ & ? & _).
Qed.

(** ** The analysis client on the page *)

Lemma failure_message_truthy (error : ImageUpload.Failure) (m : jsstring) :
  ImageUpload.failure_message error = Some m → JS.truthy m = true.
Proof.
  unfold ImageUpload.failure_message.
  case_bool_decide; [by intros [= <-]|].
  destruct (ImageUpload.response error) as [r|].
  - destruct (ImageUpload.detail (ImageUpload.data r)); [|done].
    by intros [= <-].
  - by destruct (ImageUpload.request error); intros [= <-].
Qed.

(** What one event can do to the stored error: leave it, clear it (the
    dismiss button and Start Over only), or store a message that is not
    empty (a click on Analyze and a settling request only). *)
Lemma step_error_change (w : World) (e : Event) :
  timers_ok w →
  RecipeSnap.error (recipeSnap (step w e)) = RecipeSnap.error (recipeSnap w)
  ∨ (RecipeSnap.error (recipeSnap (step w e)) = None
     ∧ (e = click_dismiss_error ∨ e = click_start_over))
  ∨ (∃ m, RecipeSnap.error (recipeSnap (step w e)) = Some m
          ∧ JS.truthy m = true
          ∧ (e = click_analyze ∨ ∃ settled, e = settle settled)).
Proof.
  intros Ht.
  destruct e as [files| | |settled|value|key| |index| | |ms].
  - left. simpl. destruct (imageUpload w); [|done]. by destruct files.
  - left. simpl. by destruct (imageUpload w).
  - simpl. destruct (imageUpload w) as [st|]; [|by left].
    unfold ImageUpload.analyzeImage_begin.
    destruct (ImageUpload.uploadedImage st); [by left|].
    right. right. eexists. split; [done|]. split; [done|]. by left.
  - simpl. destruct (inflight w) as [|req rest]; [by left|].
    destruct settled as [[[[|i ings] [|rc recs]]|]|error]; try by left.
    + right. right. eexists. split; [done|]. split; [done|]. right. by eexists.
    + simpl. destruct (ImageUpload.failure_message error) as [m|] eqn:Hm;
        [|by left].
      right. right. exists m. split; [done|].
      split; [by eapply failure_message_truthy|]. right. by eexists.
  - left. by destruct (step_edit_frame w (edit_type value)) as (_&_&?&_).
  - left. by destruct (step_edit_frame w (edit_key key)) as (_&_&?&_).
  - left. by destruct (step_edit_frame w edit_add) as (_&_&?&_).
  - left. by destruct (step_edit_frame w (edit_remove index)) as (_&_&?&_).
  - simpl. destruct (RecipeSnap.shows_error (recipeSnap w)); [|by left].
    right. left. split; [done|]. by left.
  - simpl. destruct (RecipeSnap.shows_start_over (recipeSnap w)); [|by left].
    right. left. split; [done|]. by right.
  - left. simpl. by destruct (elapse_busy ms w Ht) as (_ & _ & ->).
Qed.

Lemma stored_error_shown (e : option jsstring) (events : list Event) :
  RecipeSnap.shows_error (recipeSnap (run (start e) events))
  = bool_decide (is_Some (RecipeSnap.error (recipeSnap (run (start e) events)))).
Proof.
  assert (∀ w, rendered w → timers_ok w → busy_ok w →
               RecipeSnap.shows_error (recipeSnap w)
               = bool_decide (is_Some (RecipeSnap.error (recipeSnap w))) →
               RecipeSnap.shows_error (recipeSnap (run w events))
               = bool_decide
                   (is_Some (RecipeSnap.error (recipeSnap (run w events)))))
    as Hrun.
  { induction events as [|ev events IH]; intros w Hr Ht Hb Hw; [done|].
    simpl. apply IH;
      [by apply step_rendered | by apply step_timers_ok
      | by apply step_busy_ok |].
    unfold RecipeSnap.shows_error in *.
    destruct (step_error_change w ev Ht) as [->|[[-> _]|(m & -> & Hm & _)]];
      [done|done|].
    rewrite Hm. symmetry. apply bool_decide_eq_true_2. by eexists. }
  destruct (start_invariants e) as (Hr & Ht & Hb).
  by apply Hrun.
Qed.

(** X12. In every session a stored error message is never the empty string:
    whenever the controller holds an error, the error box with its dismiss
    button is on the page. *)
Theorem stored_error_is_drawn (e : option jsstring) (events : list Event) :
  RecipeSnap.shows_error (recipeSnap (run (start e) events))
  = bool_decide (is_Some (RecipeSnap.error (recipeSnap (run (start e) events)))).
Proof. apply stored_error_shown. Qed.

(** C6, amended. Starting an analysis does not clear the error message: with
    an image selected, triggering the analysis leaves the message as it was,
    and so does a successful result.  In every session the only events that
    clear a stored message are the dismiss button and Reset, which do clear
    it.  An analysis that reports a failure (no image selected, no data, or
    a rejected request whose message can be built) replaces the message by
    the one it reports. *)
Theorem analysis_start_keeps_error
    (w : World) (env : option jsstring) (st : ImageUpload.State)
    (data : AnalysisResult.t) (error : ImageUpload.Failure)
    (e : option jsstring) (events : list Event) (ev : Event) :
  RecipeSnap.error
    (recipeSnap (run_imageUpload (ImageUpload.analyzeImage_begin env st) w))
  = match ImageUpload.uploadedImage st with
    | Some _ => RecipeSnap.error (recipeSnap w)
    | None => Some (lit "Please select an image first")
    end
  ∧ RecipeSnap.error
      (recipeSnap
         (run_imageUpload
            (ImageUpload.analyzeImage_resume (ImageUpload.resolved (Some data)))
            w))
    = RecipeSnap.error (recipeSnap w)
  ∧ (RecipeSnap.error (recipeSnap (run (start e) events)) ≠ None →
     RecipeSnap.error (recipeSnap (step (run (start e) events) ev)) = None →
     ev = click_dismiss_error ∨ ev = click_start_over)
  ∧ (RecipeSnap.error (recipeSnap (run (start e) events)) ≠ None →
     RecipeSnap.error
       (recipeSnap (step (run (start e) events) click_dismiss_error)) = None)
  ∧ RecipeSnap.error (recipeSnap (run_recipeSnap RecipeSnap.dismissError w)) = None
  ∧ RecipeSnap.error (recipeSnap (reset w)) = None
  ∧ RecipeSnap.error
      (recipeSnap
         (run_imageUpload
            (ImageUpload.analyzeImage_resume (ImageUpload.resolved None)) w))
    = Some (lit "No data received from server")
  ∧ (∀ m, ImageUpload.failure_message error = Some m →
          RecipeSnap.error
            (recipeSnap
               (run_imageUpload
                  (ImageUpload.analyzeImage_resume (ImageUpload.rejected error))
                  w))
          = Some m).
Proof.
  split.
  { unfold ImageUpload.analyzeImage_begin.
    by destruct (ImageUpload.uploadedImage st). }
  split; [by destruct data as [[|i ings] [|rc recs]]|].
  destruct (start_invariants e) as (Hr & Ht & Hb).
  destruct (run_invariants (start e) events Hr Ht Hb) as (_ & Htimers & _).
  split.
  { intros Hsome Hnone.
    destruct (step_error_change _ ev Htimers)
      as [Hsame|[[_ Hev]|(m & Hm & _)]]; [|done|congruence].
    rewrite Hsame in Hnone. done. }
  split.
  { intros Hsome.
    pose proof (stored_error_shown e events) as Hshown.
    simpl. rewrite Hshown, bool_decide_eq_true_2; [done|].
    by destruct (RecipeSnap.error _); [eexists|]. }
  split; [done|]. split; [done|]. split; [done|].
  intros m Hm. by rewrite resume_rejected, Hm.
Qed.



Lemma step_click_analyze (w : World) :
  step w click_analyze
  = match imageUpload w with
    | Some st => run_imageUpload (ImageUpload.analyzeImage_begin (env w) st) w
    | None => w
    end.
Proof. reflexivity. Qed.

(** X14. Every click on Analyze with an image selected sends one more request
    for that image to the full-analysis endpoint with a time-out of 60000 ms
    and turns the busy flag on, whether or not a request is already in
    flight; nothing else on the page changes. *)
Theorem analyze_sends_one_more_request
    (w : World) (st : ImageUpload.State) (f : ImageUpload.File) :
  imageUpload w = Some st →
  ImageUpload.uploadedImage st = Some f →
  inflight (step w click_analyze)
  = inflight w
    ++ [ {| ImageUpload.url :=
              API_CONFIG.BASE_URL (env w) ++ lit "/full-analysis";
            ImageUpload.file := f;
            ImageUpload.content_type := lit "multipart/form-data";
            ImageUpload.timeout := 60000 |} ]
  ∧ recipeSnap (step w click_analyze)
    = {| RecipeSnap.ingredients := RecipeSnap.ingredients (recipeSnap w);
         RecipeSnap.recipes := RecipeSnap.recipes (recipeSnap w);
         RecipeSnap.loading := true;
         RecipeSnap.error := RecipeSnap.error (recipeSnap w);
         RecipeSnap.currentStep := RecipeSnap.currentStep (recipeSnap w) |}
  ∧ timers (step w click_analyze) = timers w.
Proof.
  intros Hst Hf. simpl. rewrite Hst.
  unfold ImageUpload.analyzeImage_begin. by rewrite Hf.
Qed.

Lemma analyze_sends_one_more_request_witness :
  length
    (inflight (step (step (step (start None) (drop_files [fridge_jpg]))
                          click_analyze)
                    click_analyze))
  = 2%nat.
Proof.
  assert (imageUpload (step (start None) (drop_files [fridge_jpg]))
          = Some {| ImageUpload.uploadedImage := Some fridge_jpg |}) as H0
    by (vm_compute; reflexivity).
  assert (imageUpload (step (step (start None) (drop_files [fridge_jpg]))
                            click_analyze)
          = Some {| ImageUpload.uploadedImage := Some fridge_jpg |}) as H1
    by (vm_compute; reflexivity).
  destruct (analyze_sends_one_more_request _ _ fridge_jpg H1 eq_refl)
    as (-> & _ & _).
  destruct (analyze_sends_one_more_request _ _ fridge_jpg H0 eq_refl)
    as (-> & _ & _).
  reflexivity.
Defined.

(** X15. Once the selected image has been removed, a click on Analyze sends
    no request: it stores "Please select an image first" as the error and
    turns the busy flag off, even when an earlier request is still in
    flight. *)
Theorem analyze_without_image_sends_nothing
    (w : World) (st : ImageUpload.State) :
  imageUpload w = Some st →
  RecipeSnap.currentStep (recipeSnap w) = Upload →
  inflight (step (step w click_remove_image) click_analyze) = inflight w
  ∧ recipeSnap (step (step w click_remove_image) click_analyze)
    = {| RecipeSnap.ingredients := RecipeSnap.ingredients (recipeSnap w);
         RecipeSnap.recipes := RecipeSnap.recipes (recipeSnap w);
         RecipeSnap.loading := false;
         RecipeSnap.error := Some (lit "Please select an image first");
         RecipeSnap.currentStep := Upload |}
  ∧ timers (step (step w click_remove_image) click_analyze) = timers w.
Proof.
  intros Hst Hstep.
  assert (imageUpload (step w click_remove_image)
          = Some {| ImageUpload.uploadedImage := None |}) as Hnone.
  { simpl. rewrite Hst. unfold run_imageUpload, render. simpl.
    unfold RecipeSnap.shows_upload. rewrite Hstep. simpl. by rewrite Hst. }
  assert (recipeSnap (step w click_remove_image) = recipeSnap w
          ∧ inflight (step w click_remove_image) = inflight w
          ∧ timers (step w click_remove_image) = timers w) as (Ha & Hfl & Ht).
  { simpl. by rewrite Hst. }
  rewrite !step_click_analyze, Hnone.
  unfold ImageUpload.analyzeImage_begin. cbn [ImageUpload.uploadedImage].
  split; [exact Hfl|]. split; [|exact Ht].
  unfold run_imageUpload. simpl. rewrite Hst. simpl. by rewrite Hstep.
Qed.

Lemma analyze_without_image_sends_nothing_witness :
  length
    (inflight
       (step (step (step (step (start None) (drop_files [fridge_jpg]))
                         click_analyze)
                   click_remove_image)
             click_analyze))
  = 1%nat
  ∧ RecipeSnap.loading
      (recipeSnap
         (step (step (step (step (start None) (drop_files [fridge_jpg]))
                           click_analyze)
                     click_remove_image)
               click_analyze))
    = false.
Proof.
  assert (imageUpload (step (step (start None) (drop_files [fridge_jpg]))
                            click_analyze)
          = Some {| ImageUpload.uploadedImage := Some fridge_jpg |}) as H1
    by (vm_compute; reflexivity).
  destruct (analyze_without_image_sends_nothing _ _ H1 eq_refl)
    as (Hfl & Hstate & _).
  rewrite Hfl, Hstate. split; reflexivity.
Defined.

(** X16. The whole path from the start: dropping an image, clicking Analyze
    and receiving a result.  One request for that image is in flight in
    between; at the end none is, the controller holds the lists of the
    result with the busy flag off and no error, the step is ingredients when
    there are ingredients and upload otherwise, and the list component, when
    there are ingredients, is mounted on them while the upload form is gone. *)
Theorem upload_analyze_result
    (e : option jsstring) (f : ImageUpload.File) (more : list ImageUpload.File)
    (r : AnalysisResult.t) :
  inflight (run (start e) [drop_files (f :: more); click_analyze])
  = [ImageUpload.analysis_request e f]
  ∧ recipeSnap
      (run (start e)
           [drop_files (f :: more); click_analyze;
            settle (ImageUpload.resolved (Some r))])
    = {| RecipeSnap.ingredients := AnalysisResult.ingredients r;
         RecipeSnap.recipes := AnalysisResult.recipes r;
         RecipeSnap.loading := false;
         RecipeSnap.error := None;
         RecipeSnap.currentStep :=
           match AnalysisResult.ingredients r with
           | [] => Upload
           | _ :: _ => Ingredients
           end |}
  ∧ inflight
      (run (start e)
           [drop_files (f :: more); click_analyze;
            settle (ImageUpload.resolved (Some r))])
    = []
  ∧ ingredientsList
      (run (start e)
           [drop_files (f :: more); click_analyze;
            settle (ImageUpload.resolved (Some r))])
    = match AnalysisResult.ingredients r with
      | [] => None
      | _ :: _ => Some (IngredientsList.mount (AnalysisResult.ingredients r))
      end
  ∧ imageUpload
      (run (start e)
           [drop_files (f :: more); click_analyze;
            settle (ImageUpload.resolved (Some r))])
    = match AnalysisResult.ingredients r with
      | [] => Some {| ImageUpload.uploadedImage := Some f |}
      | _ :: _ => None
      end.
Proof. by destruct r as [[|i ings] [|rc recs]]. Qed.

(** X17. In every session, once the page has left the upload step, Start Over
    brings the upload form back with no image selected: the image chosen
    before is forgotten.  The next request is for the image dropped after
    Start Over, never for the earlier one. *)
Theorem start_over_forgets_image
    (e : option jsstring) (events : list Event)
    (f : ImageUpload.File) (more : list ImageUpload.File) :
  RecipeSnap.currentStep (recipeSnap (run (start e) events)) ≠ Upload →
  imageUpload (step (run (start e) events) click_start_over)
  = Some {| ImageUpload.uploadedImage := None |}
  ∧ inflight
      (step (step (step (run (start e) events) click_start_over)
                  (drop_files (f :: more)))
            click_analyze)
    = inflight (run (start e) events)
      ++ [ {| ImageUpload.url :=
                API_CONFIG.BASE_URL (env (run (start e) events))
                ++ lit "/full-analysis";
              ImageUpload.file := f;
              ImageUpload.content_type := lit "multipart/form-data";
              ImageUpload.timeout := 60000 |} ].
Proof.
  intros Hstep.
  destruct (start_invariants e) as (Hr & Ht & Hb).
  destruct (run_invariants (start e) events Hr Ht Hb) as ([Hup _] & _ & _).
  set (w := run (start e) events) in *.
  assert (imageUpload w = None) as Hnone.
  { destruct (imageUpload w) eqn:Hiu; [|done].
    assert (RecipeSnap.shows_upload (recipeSnap w) = true) as Hshow
      by (apply Hup; by eexists).
    unfold RecipeSnap.shows_upload in Hshow.
    by apply bool_decide_eq_true in Hshow. }
  assert (step w click_start_over = reset w) as ->.
  { simpl. unfold RecipeSnap.shows_start_over.
    by rewrite bool_decide_eq_false_2. }
  assert (imageUpload (reset w) = Some {| ImageUpload.uploadedImage := None |})
    as Hmount.
  { unfold reset, run_recipeSnap, render. simpl. by rewrite Hnone. }
  split; [done|].
  assert (imageUpload (step (reset w) (drop_files (f :: more)))
          = Some {| ImageUpload.uploadedImage := Some f |}) as Hdrop.
  { change (step (reset w) (drop_files (f :: more)))
      with (match imageUpload (reset w) with
            | Some _ => run_imageUpload (ImageUpload.onDrop (f :: more)) (reset w)
            | None => reset w
            end).
    rewrite Hmount.
    change (imageUpload
              (run_imageUpload (ImageUpload.onDrop (f :: more)) (reset w)))
      with (Some (default ImageUpload.mount
                    (ImageUpload.set (ImageUpload.setUploadedImage (Some f))
                       <$> imageUpload (reset w)))).
    by rewrite Hmount. }
  rewrite step_click_analyze, Hdrop. reflexivity.
Qed.

Lemma start_over_forgets_image_witness :
  imageUpload
    (step (run (start None)
               [ drop_files [fridge_jpg]; click_analyze;
                 settle (ImageUpload.resolved (Some ingredients_only)) ])
          click_start_over)
  = Some {| ImageUpload.uploadedImage := None |}.
Proof.
  assert (RecipeSnap.currentStep
            (recipeSnap
               (run (start None)
                    [ drop_files [fridge_jpg]; click_analyze;
                      settle (ImageUpload.resolved (Some ingredients_only)) ]))
          ≠ Upload) as Hstep by (vm_compute; discriminate).
  exact (proj1 (start_over_forgets_image None _ fridge_jpg [] Hstep)).
Defined.

Lemma edits_frame (w : World) (edits : list Edit) :
  same_but_ingredients w (run w (edit_event <$> edits)).
Proof.
  revert w. induction edits as [|e edits IH]; intros w.
  - by unfold same_but_ingredients.
  - simpl. eapply same_but_ingredients_trans; [apply step_edit_frame | apply IH].
Qed.

(** X18. Edits made during the pacing delay neither cancel nor postpone the
    transition: after a result with ingredients and recipes, whatever edits
    follow (even ones that empty the list), the step is still ingredients
    before the 1000 ms have passed and recipes once they have, with the
    recipes of the result. *)
Theorem edits_do_not_stop_pacing
    (w : World) (r : AnalysisResult.t) (edits : list Edit) (ms : N) :
  timers w = [] →
  AnalysisResult.ingredients r ≠ [] →
  AnalysisResult.recipes r ≠ [] →
  (ms < 1000 →
   RecipeSnap.currentStep
     (recipeSnap (elapse ms (run (deliver r w) (edit_event <$> edits))))
   = Ingredients)
  ∧ (1000 ≤ ms →
     RecipeSnap.currentStep
       (recipeSnap (elapse ms (run (deliver r w) (edit_event <$> edits))))
     = Recipes)
  ∧ RecipeSnap.recipes
      (recipeSnap (run (deliver r w) (edit_event <$> edits)))
    = AnalysisResult.recipes r.
Proof.
  intros Ht Hi Hr.
  pose proof (deliver_timers w r) as Hts.
  pose proof (deliver_now w r) as Hn.
  pose proof (deliver_state w r) as Hst.
  fold (deliver r w) in Hts, Hn, Hst. rewrite Ht in Hts.
  destruct (AnalysisResult.ingredients r) as [|i ings]; [done|].
  destruct (AnalysisResult.recipes r) as [|rc recs] eqn:Hrecs; [done|].
  change (timers (deliver r w)
          = [ {| due := now w + 1000;
                 callback := [RecipeSnap.setCurrentStep Recipes] |} ]) in Hts.
  destruct (edits_frame (deliver r w) edits)
    as (Hstep & Hrec & _ & _ & Htm & _ & Hnow).
  rewrite Hts in Htm. rewrite Hn in Hnow.
  destruct (elapse_one_timer ms _ _ _ Htm) as [Hbefore Hafter].
  rewrite Hnow in Hbefore, Hafter.
  split; [|split].
  - intros Hms. destruct Hbefore as [-> _]; [lia|].
    by rewrite Hstep, Hst.
  - intros Hms. apply Hafter. lia.
  - by rewrite Hrec, Hst.
Qed.

Lemma edits_do_not_stop_pacing_witness :
  RecipeSnap.currentStep
    (recipeSnap
       (elapse 1000
          (run (deliver ingredients_and_recipes (start None))
               (edit_event <$> [edit_remove 0; edit_remove 0]))))
  = Recipes.
Proof.
  assert (AnalysisResult.ingredients ingredients_and_recipes ≠ []) as Hi
    by discriminate.
  assert (AnalysisResult.recipes ingredients_and_recipes ≠ []) as Hr
    by discriminate.
  assert (1000 ≤ 1000) as Hms by lia.
  exact (proj1 (proj2 (edits_do_not_stop_pacing (start None)
                         ingredients_and_recipes
                         [edit_remove 0; edit_remove 0] 1000
                         eq_refl Hi Hr))
               Hms).
Defined.
